(** * trefle-api: the flattening pipeline, the collection trimmers and the
      plant pagination loop

    A shallow embedding of [src/config.js] ([trimPlantSynonyms],
    [findFirstSourceWithUrl], [flattenPlantData]) and of the command line
    driver ([enrichPlantData], [fetchPlants]), followed by the properties
    that the specification states about them.

    - JavaScript values are an inductive type; a property read that can
      throw returns a [result].
    - The driver is a step function on the variables of its loop, iterated
      under a bound on the number of turns; the remote API is a record of
      functions, the files written are collected in a list.
    - [trimPlantSynonyms] is embedded twice: on values, as the rest of the
      pipeline uses it, and on a store of cells with identity, where
      "does not modify its argument" can be stated.  The second refines
      the first. *)

From Stdlib Require Import ZArith String Ascii List Bool Lia Sorted Permutation.
From stdpp Require Import base tactics option list strings gmap pretty.

Set Warnings "-register-all".

Open Scope string_scope.
Open Scope list_scope.
Open Scope Z_scope.

(** ** JavaScript values

    The data that flows through the program is parsed JSON plus the
    [undefined] of missing properties.  Numbers are the integers the code
    computes with (identifiers, counts, lengths); fractional numbers,
    which the code only copies, are outside the model.  Objects keep their
    properties in insertion order, one pair per key. *)

Inductive val : Type :=
  | VUndef
  | VNull
  | VBool (b : bool)
  | VNum (n : Z)
  | VStr (s : string)
  | VArr (elems : list val)
  | VObj (props : list (string * val)).

Inductive error : Type :=
  | TypeError            (* property read on [null] or [undefined] *)
  | ApiError.            (* rejected request *)

Inductive result (A : Type) : Type :=
  | Ok (a : A)
  | Throw (e : error).
Arguments Ok {A} a.
Arguments Throw {A} e.

Definition bind {A B : Type} (m : result A) (k : A -> result B) : result B :=
  match m with
  | Ok a => k a
  | Throw e => Throw e
  end.

Notation "'let!' x ':=' m 'in' k" := (bind m (fun x => k))
  (at level 10, x name, m at level 100, k at level 200,
   format "'[v' 'let!'  x  ':='  m  'in' '/' k ']'").

Fixpoint mapM {A B : Type} (f : A -> result B) (l : list A) : result (list B) :=
  match l with
  | [] => Ok []
  | x :: l' =>
      let! y := f x in
      let! ys := mapM f l' in
      Ok (y :: ys)
  end.

Fixpoint foldM {A S : Type} (f : S -> A -> result S) (l : list A) (s : S) : result S :=
  match l with
  | [] => Ok s
  | x :: l' => let! s' := f s x in foldM f l' s'
  end.

(** *** Objects: own properties in insertion order *)

Fixpoint lookup_own {V : Type} (k : string) (o : list (string * V)) : option V :=
  match o with
  | [] => None
  | (k', v) :: o' => if String.eqb k k' then Some v else lookup_own k o'
  end.

(** [o[k] = v]: overwrite in place, or append a new property. *)
Fixpoint set_own {V : Type} (k : string) (v : V) (o : list (string * V))
    : list (string * V) :=
  match o with
  | [] => [(k, v)]
  | (k', v') :: o' =>
      if String.eqb k k' then (k, v) :: o' else (k', v') :: set_own k v o'
  end.

Definition keys {V : Type} (o : list (string * V)) : list string := map fst o.

(** The characters of a string, each as a one-character string. *)
Fixpoint chars (s : string) : list string :=
  match s with
  | EmptyString => []
  | String c s' => String c EmptyString :: chars s'
  end.

(** Index keys ["0"], ["1"], ... paired with the elements. *)
Fixpoint indexed {V : Type} (i : nat) (l : list V) : list (string * V) :=
  match l with
  | [] => []
  | x :: l' => (pretty i, x) :: indexed (S i) l'
  end.

(** The own enumerable properties, as [Object.entries(v)] and the spread
    [{...v}] see them. *)
Definition own_entries (v : val) : list (string * val) :=
  match v with
  | VObj o => o
  | VArr l => indexed 0 l
  | VStr s => indexed 0 (map VStr (chars s))
  | _ => []
  end.

(** Property read [v.k] / [v[k]].  Reading from [null] or [undefined]
    throws; a missing property is [undefined]. *)
Definition get (v : val) (k : string) : result val :=
  match v with
  | VUndef | VNull => Throw TypeError
  | VObj o => Ok (default VUndef (lookup_own k o))
  | VArr l =>
      if String.eqb k "length" then Ok (VNum (Z.of_nat (length l)))
      else Ok (default VUndef (lookup_own k (indexed 0 l)))
  | VStr s =>
      if String.eqb k "length" then Ok (VNum (Z.of_nat (String.length s)))
      else Ok (default VUndef (lookup_own k (indexed 0 (map VStr (chars s)))))
  | VBool _ | VNum _ => Ok VUndef
  end.

Definition truthy (v : val) : bool :=
  match v with
  | VUndef | VNull => false
  | VBool b => b
  | VNum n => negb (Z.eqb n 0)
  | VStr s => negb (String.eqb s "")
  | VArr _ | VObj _ => true
  end.

Definition nullish (v : val) : bool :=
  match v with
  | VUndef | VNull => true
  | _ => false
  end.

(** [a || b] *)
Definition or_else (a b : val) : val := if truthy a then a else b.

(** [a ?? b] *)
Definition coalesce (a b : val) : val := if nullish a then b else a.

(** [v?.k] *)
Definition get_opt (v : val) (k : string) : result val :=
  if nullish v then Ok VUndef else get v k.

(** [typeof v === 'object'] *)
Definition typeof_object (v : val) : bool :=
  match v with
  | VNull | VArr _ | VObj _ => true
  | _ => false
  end.

Definition isArray (v : val) : bool :=
  match v with
  | VArr _ => true
  | _ => false
  end.

(** [l.slice(0, e)] *)
Definition slice0 {A : Type} (e : Z) (l : list A) : list A :=
  if e <? 0 then take (Z.to_nat (Z.max (Z.of_nat (length l) + e) 0)) l
  else take (Z.to_nat e) l.

Definition elems (v : val) : list val :=
  match v with
  | VArr l => l
  | _ => []
  end.

Definition len (v : val) : Z := Z.of_nat (length (elems v)).

(** ** [src/config.js]: collection trimmers *)

(** The callback of [plants.map] in [trimPlantSynonyms]: a shallow copy
    whose [synonyms] is cut when it is an array longer than the maximum. *)
Definition trimPlant (maxSynonyms : Z) (plant : val) : val :=
  let plantCopy := own_entries plant in
  let synonyms := default VUndef (lookup_own "synonyms" plantCopy) in
  if isArray synonyms && (maxSynonyms <? len synonyms) then
    VObj (set_own "synonyms" (VArr (slice0 maxSynonyms (elems synonyms))) plantCopy)
  else VObj plantCopy.

Definition trimPlantSynonyms (plants : val) (maxSynonyms : Z) : val :=
  if negb (truthy plants) || negb (isArray plants) then plants
  else VArr (map (trimPlant maxSynonyms) (elems plants)).

(** The [for ... of] loop of [findFirstSourceWithUrl]. *)
Fixpoint first_with_url (sources : list val) : result val :=
  match sources with
  | [] => Ok VNull
  | source :: rest =>
      if truthy source && typeof_object source then
        let! url := get source "url" in
        if truthy url then Ok source else first_with_url rest
      else first_with_url rest
  end.

Definition findFirstSourceWithUrl (sources : val) : result val :=
  if negb (truthy sources) || negb (isArray sources) then Ok VNull
  else first_with_url (elems sources).

(** ** [src/config.js]: [flattenPlantData] *)

Definition rootProps : list string :=
  [ "id"; "common_name"; "slug"; "scientific_name"; "year";
    "bibliography"; "author"; "status"; "rank"; "family_common_name";
    "genus_id"; "image_url"; "observations"; "vegetable" ].

Definition mainSpeciesProps : list string :=
  [ "rank"; "observations"; "duration"; "edible_part"; "edible" ].

(** [for (const prop of props) flattened[prop] = src[prop];] *)
Definition copy_props (src : val) (props : list string)
    (flattened : list (string * val)) : result (list (string * val)) :=
  foldM (fun fl prop => let! v := get src prop in Ok (set_own prop v fl))
        props flattened.

(** [flattened.k = src.prop;] *)
Definition assign (k : string) (src : val) (prop : string)
    (flattened : list (string * val)) : result (list (string * val)) :=
  let! v := get src prop in
  Ok (set_own k v flattened).

(** [flattened.k = src.prop?.unit;] *)
Definition assign_unit (k : string) (src : val) (prop unit : string)
    (flattened : list (string * val)) : result (list (string * val)) :=
  let! u := get src prop in
  let! v := get_opt u unit in
  Ok (set_own k v flattened).

(** The callback of [.map] over an image list. *)
Definition trim_image (img : val) : result val :=
  if typeof_object img then
    let! image_url := get img "image_url" in
    let! copyright := get img "copyright" in
    Ok (VObj [("image_url", image_url); ("copyright", copyright)])
  else Ok img.

(** The callback of [.filter]: [img && (img.image_url || img.copyright)]. *)
Definition keep_image (img : val) : result bool :=
  if truthy img then
    let! image_url := get img "image_url" in
    if truthy image_url then Ok true
    else
      let! copyright := get img "copyright" in
      Ok (truthy copyright)
  else Ok false.

Fixpoint filterM {A : Type} (f : A -> result bool) (l : list A) : result (list A) :=
  match l with
  | [] => Ok []
  | x :: l' =>
      let! b := f x in
      let! r := filterM f l' in
      Ok (if b then x :: r else r)
  end.

(** One turn of the loop over [Object.entries(images)]. *)
Definition trim_image_entry (trimmedImages : list (string * val))
    (entry : string * val) : result (list (string * val)) :=
  let '(imageType, imageList) := entry in
  if negb (truthy imageList) || negb (isArray imageList) || String.eqb imageType "" then
    Ok trimmedImages
  else
    let! projected := mapM trim_image (slice0 2 (elems imageList)) in
    let! trimmedList := filterM keep_image projected in
    if 0 <? Z.of_nat (length trimmedList) then
      Ok (set_own imageType (VArr trimmedList) trimmedImages)
    else Ok trimmedImages.

Definition trim_images (images : val) : result (list (string * val)) :=
  foldM trim_image_entry (own_entries images) [].

(** The callback of [.map] over a distribution list. *)
Definition project_dist (dist : val) : result val :=
  let! name := get dist "name" in
  let! species_count := get dist "species_count" in
  Ok (VObj [("name", name); ("species_count", species_count)]).

(** [ToNumber] on the operands of the comparator; [None] is [NaN].  Only
    numbers, booleans, [null], [undefined] and the empty string are
    converted exactly; any other operand counts as [NaN] here. *)
Definition to_number (v : val) : option Z :=
  match v with
  | VNum n => Some n
  | VBool b => Some (if b then 1 else 0)
  | VNull => Some 0
  | VStr EmptyString => Some 0
  | _ => None
  end.

(** [(a, b) => (b.species_count ?? 0) - (a.species_count ?? 0)] *)
Definition by_count_desc (a b : val) : result (option Z) :=
  let! ca := get a "species_count" in
  let countA := coalesce ca (VNum 0) in
  let! cb := get b "species_count" in
  let countB := coalesce cb (VNum 0) in
  Ok (match to_number countB, to_number countA with
      | Some nb, Some na => Some (nb - na)
      | _, _ => None
      end).

(** [Array.prototype.sort] with a comparator is stable; it is embedded as
    the stable insertion sort.  A comparator result that is positive moves
    the first argument behind the second; zero, a negative number and
    [NaN] leave it in front. *)
Definition goes_after (c : option Z) : bool :=
  match c with
  | Some z => 0 <? z
  | None => false
  end.

Fixpoint insert_sorted (cmp : val -> val -> result (option Z)) (x : val)
    (l : list val) : result (list val) :=
  match l with
  | [] => Ok [x]
  | y :: l' =>
      let! c := cmp x y in
      if goes_after c then
        let! r := insert_sorted cmp x l' in
        Ok (y :: r)
      else Ok (x :: y :: l')
  end.

Fixpoint array_sort (cmp : val -> val -> result (option Z)) (l : list val)
    : result (list val) :=
  match l with
  | [] => Ok []
  | x :: l' =>
      let! s := array_sort cmp l' in
      insert_sorted cmp x s
  end.

(** One turn of the loop over [['native', 'introduced']]. *)
Definition trim_dist_type (distributions : val)
    (trimmedDistributions : list (string * val)) (distType : string)
    : result (list (string * val)) :=
  let! dl := get distributions distType in
  let distList := or_else dl (VArr []) in
  if isArray distList && (0 <? len distList) then
    let! projected := mapM project_dist (elems distList) in
    let! sorted := array_sort by_count_desc projected in
    let trimmedDistList := slice0 5 sorted in
    if 0 <? Z.of_nat (length trimmedDistList) then
      Ok (set_own distType (VArr trimmedDistList) trimmedDistributions)
    else Ok trimmedDistributions
  else Ok trimmedDistributions.

Definition trim_distributions (distributions : val) : result (list (string * val)) :=
  foldM (trim_dist_type distributions) ["native"; "introduced"] [].

(** [typeof x === 'object' ? x.name : x] *)
Definition name_of (x : val) : result val :=
  if typeof_object x then get x "name" else Ok x.

Definition flattenPlantData (paginatedData detailedData : val) : result val :=
  let flattened := [] in
  (* Root level properties from paginated data *)
  let! flattened := copy_props paginatedData rootProps flattened in
  (* Synonyms - keep top 5 only *)
  let! s := get paginatedData "synonyms" in
  let synonyms := or_else s (VArr []) in
  let flattened :=
    if isArray synonyms && (5 <? len synonyms) then
      set_own "synonyms" (VArr (slice0 5 (elems synonyms))) flattened
    else set_own "synonyms" synonyms flattened in
  (* Get main_species from detailed data *)
  let! ms := get detailedData "main_species" in
  let mainSpecies := or_else ms (VObj []) in
  let! flattened := copy_props mainSpecies mainSpeciesProps flattened in
  (* Images *)
  let! im := get mainSpecies "images" in
  let images := or_else im (VObj []) in
  let! trimmedImages := trim_images images in
  let flattened := set_own "images" (VObj trimmedImages) flattened in
  (* Distributions *)
  let! ds := get mainSpecies "distributions" in
  let distributions := or_else ds (VObj []) in
  let! trimmedDistributions := trim_distributions distributions in
  let flattened := set_own "distributions" (VObj trimmedDistributions) flattened in
  (* Flower *)
  let! fw := get mainSpecies "flower" in
  let flower := or_else fw (VObj []) in
  let! flattened := assign "flower_color" flower "color" flattened in
  let! flattened := assign "flower_conspicuous" flower "conspicuous" flattened in
  (* Foliage *)
  let! fo := get mainSpecies "foliage" in
  let foliage := or_else fo (VObj []) in
  let! flattened := assign "foliage_texture" foliage "texture" flattened in
  let! flattened := assign "foliage_color" foliage "color" flattened in
  let! flattened := assign "foliage_leaf_retention" foliage "leaf_retention" flattened in
  (* Fruit or seed *)
  let! fr := get mainSpecies "fruit_or_seed" in
  let fruitOrSeed := or_else fr (VObj []) in
  let! flattened := assign "fruit_conspicuous" fruitOrSeed "conspicuous" flattened in
  let! flattened := assign "fruit_color" fruitOrSeed "color" flattened in
  let! flattened := assign "fruit_shape" fruitOrSeed "shape" flattened in
  let! flattened := assign "fruit_seed_persistence" fruitOrSeed "seed_persistence" flattened in
  (* Sources - first source with URL only *)
  let! so := get mainSpecies "sources" in
  let sources := or_else so (VArr []) in
  let! source := findFirstSourceWithUrl sources in
  let flattened := set_own "source" source flattened in
  (* Specifications *)
  let! sp := get mainSpecies "specifications" in
  let specifications := or_else sp (VObj []) in
  let! flattened := assign "spec_ligneous_type" specifications "ligneous_type" flattened in
  let! flattened := assign "spec_growth_form" specifications "growth_form" flattened in
  let! flattened := assign "spec_growth_habit" specifications "growth_habit" flattened in
  let! flattened := assign "spec_growth_rate" specifications "growth_rate" flattened in
  let! flattened := assign_unit "spec_average_height_cm" specifications "average_height" "cm" flattened in
  let! flattened := assign_unit "spec_maximum_height_cm" specifications "maximum_height" "cm" flattened in
  let! flattened := assign "spec_nitrogen_fixation" specifications "nitrogen_fixation" flattened in
  let! flattened := assign "spec_shape_and_orientation" specifications "shape_and_orientation" flattened in
  let! flattened := assign "spec_toxicity" specifications "toxicity" flattened in
  (* Growth *)
  let! gr := get mainSpecies "growth" in
  let growth := or_else gr (VObj []) in
  let! flattened := assign "growth_description" growth "description" flattened in
  let! flattened := assign "growth_sowing" growth "sowing" flattened in
  let! flattened := assign "growth_days_to_harvest" growth "days_to_harvest" flattened in
  let! flattened := assign_unit "growth_row_spacing_cm" growth "row_spacing" "cm" flattened in
  let! flattened := assign_unit "growth_spread_cm" growth "spread" "cm" flattened in
  let! flattened := assign "growth_ph_maximum" growth "ph_maximum" flattened in
  let! flattened := assign "growth_ph_minimum" growth "ph_minimum" flattened in
  let! flattened := assign "growth_light" growth "light" flattened in
  let! flattened := assign "growth_atmospheric_humidity" growth "atmospheric_humidity" flattened in
  let! flattened := assign "growth_months" growth "growth_months" flattened in
  let! flattened := assign "growth_bloom_months" growth "bloom_months" flattened in
  let! flattened := assign "growth_fruit_months" growth "fruit_months" flattened in
  let! flattened := assign_unit "growth_minimum_precipitation_mm" growth "minimum_precipitation" "mm" flattened in
  let! flattened := assign_unit "growth_maximum_precipitation_mm" growth "maximum_precipitation" "mm" flattened in
  let! flattened := assign_unit "growth_minimum_root_depth_cm" growth "minimum_root_depth" "cm" flattened in
  let! flattened := assign_unit "growth_minimum_temperature_deg_f" growth "minimum_temperature" "deg_f" flattened in
  let! flattened := assign_unit "growth_minimum_temperature_deg_c" growth "minimum_temperature" "deg_c" flattened in
  let! flattened := assign_unit "growth_maximum_temperature_deg_f" growth "maximum_temperature" "deg_f" flattened in
  let! flattened := assign_unit "growth_maximum_temperature_deg_c" growth "maximum_temperature" "deg_c" flattened in
  let! flattened := assign "growth_soil_nutriments" growth "soil_nutriments" flattened in
  let! flattened := assign "growth_soil_salinity" growth "soil_salinity" flattened in
  let! flattened := assign "growth_soil_texture" growth "soil_texture" flattened in
  let! flattened := assign "growth_soil_humidity" growth "soil_humidity" flattened in
  (* Genus - extract name only *)
  let! ge := get mainSpecies "genus" in
  let genus := or_else ge (VObj []) in
  let! g := name_of genus in
  let flattened := set_own "genus" g flattened in
  (* Family - extract name only *)
  let! fa := get mainSpecies "family" in
  let family := or_else fa (VObj []) in
  let! f := name_of family in
  let flattened := set_own "family" f flattened in
  Ok (VObj flattened).

(** ** The command line driver

    The two remote calls are the environment of the driver.  A call either
    resolves to the parsed response or rejects.  A page of the plant list
    carries [data] (an array, or [None] when it is absent or [null]) and
    [links]; the response of a single plant is an arbitrary value.  The
    pauses between requests and the log lines do not influence what is
    written and are left out; [writeToFile] appends to the list of files
    written. *)

Record page_response : Type := {
  data : option (list val);
  links : val
}.

Record TrefleAPI : Type := {
  getPlants : Z -> result page_response;   (* [api.getPlants({ page })] *)
  getPlant : val -> result val             (* [api.getPlant(plantId)] *)
}.

Record options : Type := {
  plants : bool;
  enrichment : bool;
  format : string;
  startPage : Z;
  pages : option Z;
  dryRun : bool
}.

Record file_write : Type := {
  contents : list val;
  directory : string;
  filename : string;
  file_format : string
}.

Definition getFileExtension (fileFormat : string) : string :=
  if String.eqb fileFormat "json.gz" then ".json.gz"
  else if String.eqb fileFormat "csv" then ".csv"
  else ".json".

(** The [try { ... } catch { ... }] of one turn of the loop of
    [enrichPlantData]: the record that is pushed. *)
Definition enrich_one (api : TrefleAPI) (dryRun : bool) (plant plantId : val) : val :=
  let attempt :=
    if dryRun then Ok plant
    else
      let! detailedResult := getPlant api plantId in
      let! d := get detailedResult "data" in
      if truthy d then flattenPlantData plant d
      else Ok plant in
  match attempt with
  | Ok pushed => pushed
  | Throw _ => plant
  end.

Fixpoint enrich_loop (api : TrefleAPI) (dryRun : bool) (plants : list val)
    (enrichedPlants : list val) : result (list val) :=
  match plants with
  | [] => Ok enrichedPlants
  | plant :: rest =>
      let! plantId := get plant "id" in
      if negb (truthy plantId) then enrich_loop api dryRun rest enrichedPlants
      else
        enrich_loop api dryRun rest
          (enrichedPlants ++ [enrich_one api dryRun plant plantId])
  end.

Definition enrichPlantData (api : TrefleAPI) (plants : list val) (dryRun : bool)
    : result (list val) :=
  if Nat.eqb (length plants) 0 then Ok []
  else enrich_loop api dryRun plants [].

(** The variables of [fetchPlants] that live across turns of its loop. *)
Record loop_state : Type := {
  page : Z;
  pagesFetched : Z;
  batchData : list val;
  batchStartPage : Z;
  written : list file_write
}.

Definition plantsDir : string := "datasets/trefle/plants".

Definition batch_filename (o : options) (batchStart batchEnd : Z) : string :=
  let fileExt := getFileExtension (format o) in
  let enrichedSuffix := if enrichment o then "_enriched" else "" in
  "plants_pages_" +:+ pretty batchStart +:+ "-" +:+ pretty batchEnd
    +:+ enrichedSuffix +:+ fileExt.

(** [await writeToFile(batchData, filepath, options.format)], taken to
    succeed.  In the csv format [writeToFile] refuses an empty batch; this
    loop does not follow that refusal. *)
Definition writeToFile (o : options) (st : loop_state) (batchEnd : Z) : loop_state :=
  {| page := page st;
     pagesFetched := pagesFetched st;
     batchData := batchData st;
     batchStartPage := batchStartPage st;
     written := written st ++
       [ {| contents := batchData st;
            directory := plantsDir;
            filename := batch_filename o (batchStartPage st) batchEnd;
            file_format := format o |} ] |}.

Definition batchSize (o : options) : Z := if enrichment o then 5 else 10.

(** [options.pages && pagesFetched >= options.pages] *)
Definition limit_reached (o : options) (st : loop_state) : bool :=
  match pages o with
  | Some n => negb (Z.eqb n 0) && (n <=? pagesFetched st)
  | None => false
  end.

Inductive control : Type := Continue | Break.

(** What the [try] block computes before it touches the loop variables:
    the records of the page, ready for the batch, and whether another page
    follows. [None] stands for a page without data. *)
Definition fetch_page (api : TrefleAPI) (o : options) (st : loop_state)
    : result (option (list val * bool)) :=
  let! res := getPlants api (page st) in
  match data res with
  | Some ((_ :: _) as pagePlants) =>
      let! records :=
        if enrichment o then enrichPlantData api pagePlants (dryRun o)
        else Ok (elems (trimPlantSynonyms (VArr pagePlants) 5)) in
      let! next := (if truthy (links res) then get (links res) "next" else Ok (links res)) in
      Ok (Some (records, truthy next))
  | _ => Ok None
  end.

(** One turn of [while (true)]. *)
Definition fetch_step (api : TrefleAPI) (o : options) (st : loop_state)
    : loop_state * control :=
  if limit_reached o st then
    (if (0 <? Z.of_nat (length (batchData st))) && negb (dryRun o)
     then writeToFile o st (page st - 1) else st, Break)
  else if dryRun o then
    let st' := {| page := page st + 1;
                  pagesFetched := pagesFetched st + 1;
                  batchData := batchData st;
                  batchStartPage := batchStartPage st;
                  written := written st |} in
    (st', if 15 <=? pagesFetched st' then Break else Continue)
  else
    match fetch_page api o st with
    | Ok (Some (records, next)) =>
        let st1 := {| page := page st;
                      pagesFetched := pagesFetched st + 1;
                      batchData := batchData st ++ records;
                      batchStartPage := batchStartPage st;
                      written := written st |} in
        let st2 :=
          if Z.eqb (Z.rem (pagesFetched st1) (batchSize o)) 0 then
            let saved := writeToFile o st1 (page st1) in
            {| page := page saved;
               pagesFetched := pagesFetched saved;
               batchData := [];
               batchStartPage := page saved + 1;
               written := written saved |}
          else st1 in
        if next then
          ({| page := page st2 + 1;
              pagesFetched := pagesFetched st2;
              batchData := batchData st2;
              batchStartPage := batchStartPage st2;
              written := written st2 |}, Continue)
        else
          (if 0 <? Z.of_nat (length (batchData st2))
           then writeToFile o st2 (page st2) else st2, Break)
    | Ok None =>
        (* 'No data returned for this page' *)
        (st, Break)
    | Throw _ =>
        (if 0 <? Z.of_nat (length (batchData st))
         then writeToFile o st (page st - 1) else st, Break)
    end.

(** The loop, with a bound on the number of turns ([None]: the bound was
    reached before the loop ended). *)
Fixpoint fetch_loop (fuel : nat) (api : TrefleAPI) (o : options)
    (st : loop_state) : option loop_state :=
  match fuel with
  | O => None
  | S fuel' =>
      match fetch_step api o st with
      | (st', Continue) => fetch_loop fuel' api o st'
      | (st', Break) => Some st'
      end
  end.

Definition initial_state (o : options) : loop_state :=
  {| page := startPage o;
     pagesFetched := 0;
     batchData := [];
     batchStartPage := startPage o;
     written := [] |}.

(** [fetchPlants(api, options)]: the files it writes. *)
Definition fetchPlants (fuel : nat) (api : TrefleAPI) (o : options)
    : option (list file_write) :=
  if negb (plants o) then Some []
  else
    match fetch_loop fuel api o (initial_state o) with
    | Some st => Some (written st)
    | None => None
    end.

(** ** [trimPlantSynonyms] over a store

    Whether [trimPlantSynonyms] leaves its argument alone is a question
    about object identity, which the value model above cannot ask.  Here
    objects and arrays live in a store and values refer to them by
    location, so that a copy and its original are different cells that may
    share the arrays they point to. *)

Module Store.

Definition loc : Type := positive.

Inductive hval : Type :=
  | HUndef
  | HNull
  | HBool (b : bool)
  | HNum (n : Z)
  | HStr (s : string)
  | HRef (l : loc).

Inductive cell : Type :=
  | CObj (props : list (string * hval))
  | CArr (elems : list hval).

Definition alloc (c : cell) (h : gmap loc cell) : loc * gmap loc cell :=
  let l := fresh (dom h) in (l, <[l := c]> h).

(** [Array.isArray(v)], with the elements. *)
Definition array_at (h : gmap loc cell) (v : hval) : option (list hval) :=
  match v with
  | HRef l =>
      match h !! l with
      | Some (CArr es) => Some es
      | _ => None
      end
  | _ => None
  end.

(** The properties that [{...v}] copies. *)
Definition spread (h : gmap loc cell) (v : hval) : list (string * hval) :=
  match v with
  | HRef l =>
      match h !! l with
      | Some (CObj ps) => ps
      | Some (CArr es) => indexed 0 es
      | None => []
      end
  | HStr s => indexed 0 (map HStr (chars s))
  | _ => []
  end.

(** The callback of [plants.map]: allocate the copy, and when its
    [synonyms] is an array longer than the maximum, allocate the slice and
    store it in the copy. *)
Definition trimPlant (maxSynonyms : Z) (h : gmap loc cell) (plant : hval)
    : gmap loc cell * hval :=
  let fields := spread h plant in
  let '(plantCopy, h1) := alloc (CObj fields) h in
  match lookup_own "synonyms" fields ≫= array_at h1 with
  | Some synonyms =>
      if maxSynonyms <? Z.of_nat (length synonyms) then
        let '(sliced, h2) := alloc (CArr (slice0 maxSynonyms synonyms)) h1 in
        (<[plantCopy := CObj (set_own "synonyms" (HRef sliced) fields)]> h2,
         HRef plantCopy)
      else (h1, HRef plantCopy)
  | None => (h1, HRef plantCopy)
  end.

Fixpoint map_store (f : gmap loc cell -> hval -> gmap loc cell * hval)
    (h : gmap loc cell) (l : list hval) : gmap loc cell * list hval :=
  match l with
  | [] => (h, [])
  | x :: l' =>
      let '(h1, y) := f h x in
      let '(h2, ys) := map_store f h1 l' in
      (h2, y :: ys)
  end.

Definition trimPlantSynonyms (h : gmap loc cell) (plants : hval) (maxSynonyms : Z)
    : gmap loc cell * hval :=
  match array_at h plants with
  | None => (h, plants)
  | Some es =>
      let '(h1, copies) := map_store (trimPlant maxSynonyms) h es in
      let '(out, h2) := alloc (CArr copies) h1 in
      (h2, HRef out)
  end.

End Store.

(** * Vocabulary of the specification

    The notions the statements below are phrased in.  They follow the
    wording of the specification, not the code. *)

(** An entry that counts: a mapping whose [url] is truthy. *)
Definition source_with_url (e : val) : bool :=
  match e with
  | VObj o => truthy (default VUndef (lookup_own "url" o))
  | _ => false
  end.

(** Reading a property where the read cannot throw. *)
Definition prop (v : val) (k : string) : val :=
  match get v k with
  | Ok x => x
  | Throw _ => VUndef
  end.

(** [or_else (prop m g) {}]: a nested group, an empty mapping when it is
    missing. *)
Definition group (m : val) (g : string) : val := or_else (prop m g) (VObj []).

(** [detail.main_species || {}] *)
Definition main_species (d : val) : val := group d "main_species".

(** [v?.k] as a value. *)
Definition prop_opt (v : val) (k : string) : val :=
  if nullish v then VUndef else prop v k.

(** A genus or family given as a mapping with a [name], or as the bare
    name. *)
Definition name_or_self (x : val) : val :=
  if typeof_object x then prop x "name" else x.

(** The first five synonyms of the summary, an empty sequence when it has
    none. *)
Definition trimmed_synonyms (p : val) : val :=
  let synonyms := or_else (prop p "synonyms") (VArr []) in
  if isArray synonyms && (5 <? len synonyms)
  then VArr (take 5 (elems synonyms)) else synonyms.

(** The first entry of [main_species.sources] that has a [url]. *)
Definition first_source (m : val) : val :=
  default VNull
    (find source_with_url (elems (or_else (prop m "sources") (VArr [])))).

(** The flattening rule set: where each key of the flat record comes from. *)
Inductive rule : Type :=
  | FromSummary (k : string)           (* summary.k *)
  | FromMain (k : string)              (* main_species.k *)
  | FromGroup (g k : string)           (* main_species.g.k *)
  | FromUnit (g k unit : string)       (* main_species.g.k.unit *)
  | NameOf (g : string)                (* main_species.g.name, or main_species.g *)
  | Synonyms
  | Images
  | Distributions
  | Source.

Definition flattening_rules : list (string * rule) :=
  [
    ("id", FromSummary "id");
    ("common_name", FromSummary "common_name");
    ("slug", FromSummary "slug");
    ("scientific_name", FromSummary "scientific_name");
    ("year", FromSummary "year");
    ("bibliography", FromSummary "bibliography");
    ("author", FromSummary "author");
    ("status", FromSummary "status");
    ("rank", FromMain "rank");
    ("family_common_name", FromSummary "family_common_name");
    ("genus_id", FromSummary "genus_id");
    ("image_url", FromSummary "image_url");
    ("observations", FromMain "observations");
    ("vegetable", FromSummary "vegetable");
    ("synonyms", Synonyms);
    ("duration", FromMain "duration");
    ("edible_part", FromMain "edible_part");
    ("edible", FromMain "edible");
    ("images", Images);
    ("distributions", Distributions);
    ("flower_color", FromGroup "flower" "color");
    ("flower_conspicuous", FromGroup "flower" "conspicuous");
    ("foliage_texture", FromGroup "foliage" "texture");
    ("foliage_color", FromGroup "foliage" "color");
    ("foliage_leaf_retention", FromGroup "foliage" "leaf_retention");
    ("fruit_conspicuous", FromGroup "fruit_or_seed" "conspicuous");
    ("fruit_color", FromGroup "fruit_or_seed" "color");
    ("fruit_shape", FromGroup "fruit_or_seed" "shape");
    ("fruit_seed_persistence", FromGroup "fruit_or_seed" "seed_persistence");
    ("source", Source);
    ("spec_ligneous_type", FromGroup "specifications" "ligneous_type");
    ("spec_growth_form", FromGroup "specifications" "growth_form");
    ("spec_growth_habit", FromGroup "specifications" "growth_habit");
    ("spec_growth_rate", FromGroup "specifications" "growth_rate");
    ("spec_average_height_cm", FromUnit "specifications" "average_height" "cm");
    ("spec_maximum_height_cm", FromUnit "specifications" "maximum_height" "cm");
    ("spec_nitrogen_fixation", FromGroup "specifications" "nitrogen_fixation");
    ("spec_shape_and_orientation", FromGroup "specifications" "shape_and_orientation");
    ("spec_toxicity", FromGroup "specifications" "toxicity");
    ("growth_description", FromGroup "growth" "description");
    ("growth_sowing", FromGroup "growth" "sowing");
    ("growth_days_to_harvest", FromGroup "growth" "days_to_harvest");
    ("growth_row_spacing_cm", FromUnit "growth" "row_spacing" "cm");
    ("growth_spread_cm", FromUnit "growth" "spread" "cm");
    ("growth_ph_maximum", FromGroup "growth" "ph_maximum");
    ("growth_ph_minimum", FromGroup "growth" "ph_minimum");
    ("growth_light", FromGroup "growth" "light");
    ("growth_atmospheric_humidity", FromGroup "growth" "atmospheric_humidity");
    ("growth_months", FromGroup "growth" "growth_months");
    ("growth_bloom_months", FromGroup "growth" "bloom_months");
    ("growth_fruit_months", FromGroup "growth" "fruit_months");
    ("growth_minimum_precipitation_mm", FromUnit "growth" "minimum_precipitation" "mm");
    ("growth_maximum_precipitation_mm", FromUnit "growth" "maximum_precipitation" "mm");
    ("growth_minimum_root_depth_cm", FromUnit "growth" "minimum_root_depth" "cm");
    ("growth_minimum_temperature_deg_f", FromUnit "growth" "minimum_temperature" "deg_f");
    ("growth_minimum_temperature_deg_c", FromUnit "growth" "minimum_temperature" "deg_c");
    ("growth_maximum_temperature_deg_f", FromUnit "growth" "maximum_temperature" "deg_f");
    ("growth_maximum_temperature_deg_c", FromUnit "growth" "maximum_temperature" "deg_c");
    ("growth_soil_nutriments", FromGroup "growth" "soil_nutriments");
    ("growth_soil_salinity", FromGroup "growth" "soil_salinity");
    ("growth_soil_texture", FromGroup "growth" "soil_texture");
    ("growth_soil_humidity", FromGroup "growth" "soil_humidity");
    ("genus", NameOf "genus");
    ("family", NameOf "family")
  ].

Definition flat_keys : list string := map fst flattening_rules.

(** The value a rule yields for summary [p] and main species [m], given the
    trimmed images and distributions. *)
Definition read_rule (p m : val) (imgs dists : list (string * val)) (r : rule)
    : val :=
  match r with
  | FromSummary k => prop p k
  | FromMain k => prop m k
  | FromGroup g k => prop (group m g) k
  | FromUnit g k unit => prop_opt (prop (group m g) k) unit
  | NameOf g => name_or_self (group m g)
  | Synonyms => trimmed_synonyms p
  | Images => VObj imgs
  | Distributions => VObj dists
  | Source => first_source m
  end.

Definition flat_record (p m : val) (imgs dists : list (string * val))
    : list (string * val) :=
  map (fun kr => (kr.1, read_rule p m imgs dists kr.2)) flattening_rules.

(** *** Distributions *)

(** An entry of a distribution list reduced to [{name, species_count}]. *)
Definition project (e : val) : val :=
  VObj [("name", prop e "name"); ("species_count", prop e "species_count")].

(** The count an entry is ranked by: a missing [species_count] is 0. *)
Definition count_of (e : val) : Z :=
  match prop e "species_count" with
  | VNum n => n
  | _ => 0
  end.

(** The count is a number, or is missing. *)
Definition numeric_count (e : val) : Prop :=
  match prop e "species_count" with
  | VNum _ | VUndef | VNull => True
  | _ => False
  end.

Definition has_count (c : Z) (e : val) : bool := Z.eqb (count_of e) c.

(** [out] is what the specification asks for on the input sequence
    [input]: the projected entries, in non-increasing order of count,
    entries of equal count in their original order, cut after five. *)
Definition ranked (input out : list val) : Prop :=
  exists sorted,
    Permutation (map project input) sorted /\
    StronglySorted (fun a b => count_of b <= count_of a) sorted /\
    (forall c, filter (has_count c) sorted = filter (has_count c) (map project input)) /\
    out = take 5 sorted.

(** The sequence under [main_species.distributions[key]], empty when there
    is none. *)
Definition dist_input (d : val) (key : string) : list val :=
  elems (or_else (prop (group (main_species d) "distributions") key) (VArr [])).

(** The source path of a rule is missing from the inputs. *)
Definition source_missing (p m : val) (r : rule) : Prop :=
  match r with
  | FromSummary k => prop p k = VUndef
  | FromMain k => prop m k = VUndef
  | FromGroup g k => prop m g = VUndef \/ prop (prop m g) k = VUndef
  | FromUnit g k unit =>
      prop m g = VUndef \/ prop (prop m g) k = VUndef \/
      prop (prop (prop m g) k) unit = VUndef
  | NameOf g => prop m g = VUndef
  | Synonyms => prop p "synonyms" = VUndef
  | Images => prop m "images" = VUndef
  | Distributions => prop m "distributions" = VUndef
  | Source => prop m "sources" = VUndef
  end.

(** What the flat record holds for a rule whose source path is missing. *)
Definition absence_marker (r : rule) : val :=
  match r with
  | Synonyms => VArr []
  | Images | Distributions => VObj []
  | Source => VNull
  | _ => VUndef
  end.

(** What the flat record holds for a rule when the detail record has no
    [main_species]. *)
Definition without_main_species (p : val) (r : rule) : val :=
  match r with
  | FromSummary k => prop p k
  | Synonyms => trimmed_synonyms p
  | r => absence_marker r
  end.

(** Sample inputs: a summary with seven synonyms, and a detail record
    whose lists exercise projection, ranking and the first source. *)
Definition sample_summary : val :=
  VObj [("id", VNum 123); ("common_name", VStr "Oak"); ("rank", VStr "species");
        ("synonyms", VArr [VStr "s1"; VStr "s2"; VStr "s3"; VStr "s4";
                           VStr "s5"; VStr "s6"; VStr "s7"])].

Definition sample_detail : val :=
  VObj [("main_species",
    VObj [("genus", VStr "Quercus");
          ("family", VObj [("name", VStr "Fagaceae")]);
          ("images", VObj [("flower",
             VArr [VObj [("image_url", VStr "u1"); ("id", VNum 1)];
                   VObj [("id", VNum 2)];
                   VObj [("copyright", VStr "c")]])]);
          ("distributions", VObj [("native",
             VArr [VObj [("name", VStr "a"); ("species_count", VNum 3)];
                   VObj [("name", VStr "b")];
                   VObj [("name", VStr "c"); ("species_count", VNum 7)];
                   VObj [("name", VStr "d"); ("species_count", VNum 3)];
                   VObj [("name", VStr "e"); ("species_count", VNum 1)];
                   VObj [("name", VStr "f"); ("species_count", VNum 9)]])]);
          ("sources", VArr [VNull; VObj [("name", VStr "n")];
                            VObj [("url", VStr "http://source")]])])].

Definition sample_flat : val :=
  Eval vm_compute in
    match flattenPlantData sample_summary sample_detail with
    | Ok r => r
    | Throw _ => VUndef
    end.

(** *** When [flattenPlantData] returns *)



(** Detail records with a [null] entry in an image list, and in a
    distribution list. *)
Definition detail_null_image : val :=
  VObj [("main_species", VObj [("images", VObj [("flower", VArr [VNull])])])].

Definition detail_null_distribution : val :=
  VObj [("main_species",
         VObj [("distributions", VObj [("native", VArr [VNull])])])].

(** *** Enrichment and pagination *)




(** [links && links.next] *)
Definition has_next (l : val) : bool := truthy l && truthy (prop l "next").

(** A remote API for the enrichment scenario: three plants on a page, the
    detail fetch of the second one is rejected. *)
Definition plant_of (n : Z) : val :=
  VObj [("id", VNum n); ("scientific_name", VStr "Quercus")].

Definition sample_api : TrefleAPI :=
  {| getPlants := fun pg =>
       if Z.eqb pg 1 then
         Ok {| data := Some [plant_of 1; plant_of 2];
               links := VObj [("next", VStr "/api/v1/plants?page=2")] |}
       else Ok {| data := Some []; links := VObj [("next", VNull)] |};
     getPlant := fun plantId =>
       match plantId with
       | VNum 2 => Throw ApiError
       | _ => Ok (VObj [("data", sample_detail)])
       end |}.

Definition sample_options : options :=
  {| plants := true; enrichment := false; format := "json";
     startPage := 1; pages := None; dryRun := false |}.


(** The same first page, followed by a page whose fetch is rejected. *)
Definition failing_second_page : TrefleAPI :=
  {| getPlants := fun pg =>
       if Z.eqb pg 1 then
         Ok {| data := Some [plant_of 1; plant_of 2];
               links := VObj [("next", VStr "/api/v1/plants?page=2")] |}
       else Throw ApiError;
     getPlant := fun _ => Throw ApiError |}.

Module StoreSpec.
Import Store.







(** The value that a store value denotes, followed to depth [n]: [None]
    when a reference dangles or lies deeper. *)
Fixpoint all_some {A B : Type} (f : A -> option B) (l : list A) : option (list B) :=
  match l with
  | [] => Some []
  | x :: l' =>
      match f x, all_some f l' with
      | Some y, Some ys => Some (y :: ys)
      | _, _ => None
      end
  end.

Definition on_field {A B : Type} (f : A -> option B) (kv : string * A)
    : option (string * B) :=
  match f kv.2 with
  | Some y => Some (kv.1, y)
  | None => None
  end.

Fixpoint reify (n : nat) (h : gmap loc cell) (v : hval) : option val :=
  match v with
  | HUndef => Some VUndef
  | HNull => Some VNull
  | HBool b => Some (VBool b)
  | HNum z => Some (VNum z)
  | HStr s => Some (VStr s)
  | HRef l =>
      match n with
      | O => None
      | S n' =>
          match h !! l with
          | Some (CObj ps) =>
              match all_some (on_field (reify n' h)) ps with
              | Some qs => Some (VObj qs)
              | None => None
              end
          | Some (CArr es) =>
              match all_some (reify n' h) es with
              | Some ys => Some (VArr ys)
              | None => None
              end
          | None => None
          end
      end
  end.


End StoreSpec.


(** * Further vocabulary: the loop of [fetchPlants] as a whole *)

(** The pages [p], [p + 1], ..., [n] of them. *)
Fixpoint pages_from (p : Z) (n : nat) : list Z :=
  match n with
  | O => []
  | S n' => p :: pages_from (p + 1) n'
  end.

(** What page [p] brings, outside a dry run: the request is rejected, or
    enrichment throws; the page has no data; or it has records for the
    batch, trimmed or enriched, and says whether a next page follows. *)
Definition page_answer (api : TrefleAPI) (o : options) (p : Z)
    : result (option (list val * bool)) :=
  match getPlants api p with
  | Throw e => Throw e
  | Ok response =>
      match data response with
      | Some (first :: others) =>
          match
            (if enrichment o then enrichPlantData api (first :: others) false
             else Ok (map (trimPlant 5) (first :: others)))
          with
          | Ok records => Ok (Some (records, has_next (links response)))
          | Throw e => Throw e
          end
      | _ => Ok None
      end
  end.

(** The records that page [p] adds to the open batch. *)
Definition page_records (api : TrefleAPI) (o : options) (p : Z) : list val :=
  match page_answer api o p with
  | Ok (Some (records, _)) => records
  | _ => []
  end.

(** A written batch, by its first page, its last page and its records. *)
Definition batch_file (o : options) (b : Z * Z * list val) : file_write :=
  {| contents := b.2;
     directory := plantsDir;
     filename := batch_filename o b.1.1 b.1.2;
     file_format := format o |}.

(** Batches that follow one another from page [s]: each spans at least
    one and at most [size] pages and starts right after the one before. *)
Fixpoint consecutive (size s : Z) (bs : list (Z * Z * list val)) : Prop :=
  match bs with
  | [] => True
  | (s', e, _) :: bs' =>
      s' = s /\ s <= e /\ e - s + 1 <= size /\ consecutive size (e + 1) bs'
  end.

(** An API whose plant list never ends: every page has one plant and a
    next link. *)
Definition endless_api : TrefleAPI :=
  {| getPlants := fun pg =>
       Ok {| data := Some [plant_of pg];
             links := VObj [("next", VStr "/api/v1/plants?page=next")] |};
     getPlant := fun _ => Throw ApiError |}.

Definition dry_options : options :=
  {| plants := true; enrichment := false; format := "json";
     startPage := 1; pages := None; dryRun := true |}.

Definition limited_options : options :=
  {| plants := true; enrichment := false; format := "json";
     startPage := 4; pages := Some 12; dryRun := false |}.

(** Where a chain of batches starting at page [s] ends: the page after
    the last batch. *)
Fixpoint chain_end (s : Z) (bs : list (Z * Z * list val)) : Z :=
  match bs with
  | [] => s
  | (_, e, _) :: bs' => chain_end (e + 1) bs'
  end.

(** The batch holds the records of the pages it is named after. *)
Definition holds_its_pages (api : TrefleAPI) (o : options)
    (b : Z * Z * list val) : Prop :=
  b.2 = flat_map (page_records api o)
          (pages_from b.1.1 (Z.to_nat (b.1.2 - b.1.1 + 1))).

(** What the API answers when the loop asks for its page number [k],
    counted from 0 at the start page. *)
Definition answer (api : TrefleAPI) (o : options) (k : nat)
    : result (option (list val * bool)) :=
  page_answer api o (startPage o + Z.of_nat k).

(** With [k] pages fetched, the page limit is reached. *)
Definition limit_at (o : options) (k : nat) : Prop :=
  exists m, pages o = Some m /\ m <> 0 /\ m <= Z.of_nat k.

(** The loop fetches its page number [k] and goes on to the next one: the
    limit is not reached, the page has data and a next page is
    announced. *)
Definition goes_on (api : TrefleAPI) (o : options) (k : nat) : Prop :=
  ~ limit_at o k /\ exists records, answer api o k = Ok (Some (records, true)).




(** What holds whenever the loop of [fetchPlants] is about to start a
    turn (other than in a dry run). *)
Definition loop_invariant (api : TrefleAPI) (o : options) (st : loop_state) : Prop :=
  0 <= pagesFetched st /\
  page st = startPage o + pagesFetched st /\
  page st - batchStartPage st = pagesFetched st mod batchSize o /\
  (forall k, (k < Z.to_nat (pagesFetched st))%nat -> goes_on api o k) /\
  batchData st =
    flat_map (page_records api o)
      (pages_from (batchStartPage st) (Z.to_nat (page st - batchStartPage st))) /\
  exists bs,
    written st = map (batch_file o) bs /\
    consecutive (batchSize o) (startPage o) bs /\
    chain_end (startPage o) bs = batchStartPage st /\
    Forall (holds_its_pages api o) bs /\
    flat_map contents (written st) =
      flat_map (page_records api o)
        (pages_from (startPage o) (Z.to_nat (batchStartPage st - startPage o))).


(** * [src/config.js], the utilities: writing and reading files

    A string is its sequence of code units, here the code units below
    256.  The calls into the file system are assumed to succeed; what is
    embedded is the text that goes into the file and the value that comes
    out of it.  [JSON.stringify], [JSON.parse] and the gzip codec are not
    opened up: a file written through them is recorded with the value it
    was made from, a value that [JSON.stringify] prints (not
    [undefined]). *)

Module Utils.

Definition comma : ascii := ascii_of_nat 44.
Definition dquote : ascii := ascii_of_nat 34.
Definition newline : ascii := ascii_of_nat 10.

(** [str.includes(c)] for a one-character [c]. *)
Fixpoint includes (c : ascii) (s : string) : bool :=
  match s with
  | EmptyString => false
  | String c' s' => Ascii.eqb c' c || includes c s'
  end.

(** [l.join(sep)] on strings. *)
Fixpoint join (sep : string) (l : list string) : string :=
  match l with
  | [] => ""
  | [x] => x
  | x :: l' => x +:+ sep +:+ join sep l'
  end.

(** [String(v)].  Inside an array, [null] and [undefined] print as the
    empty string. *)
Fixpoint to_string (v : val) : string :=
  match v with
  | VUndef => "undefined"
  | VNull => "null"
  | VBool true => "true"
  | VBool false => "false"
  | VNum n => pretty n
  | VStr s => s
  | VArr l =>
      join ","
        (map (fun e => match e with
                       | VUndef | VNull => ""
                       | _ => to_string e
                       end) l)
  | VObj _ => "[object Object]"
  end.

(** [str.replace] of every double quote by two of them. *)
Fixpoint double_quotes (s : string) : string :=
  match s with
  | EmptyString => EmptyString
  | String c s' =>
      if Ascii.eqb c dquote then String dquote (String dquote (double_quotes s'))
      else String c (double_quotes s')
  end.

(** The callback of [headers.map] in the CSV branch: one cell. *)
Definition csv_value (value : val) : string :=
  if nullish value then ""
  else
    let str := to_string value in
    if includes comma str || includes dquote str || includes newline str then
      String dquote (double_quotes str) +:+ String dquote ""
    else str.

(** What is thrown here: what the embedded code already throws, or an
    [Error] with its message. *)
Inductive thrown : Type :=
  | Thrown (e : error)
  | Err (message : string).

Inductive outcome (A : Type) : Type :=
  | Done (a : A)
  | Raise (e : thrown).
Arguments Done {A} a.
Arguments Raise {A} e.

Definition of_result {A : Type} (r : result A) : outcome A :=
  match r with
  | Ok a => Done a
  | Throw e => Raise (Thrown e)
  end.

Definition and_then {A B : Type} (m : outcome A) (k : A -> outcome B) : outcome B :=
  match m with
  | Done a => k a
  | Raise e => Raise e
  end.

(** One line of the CSV text: the cells of [row] under [headers]. *)
Fixpoint csv_cells (headers : list string) (row : val) : outcome (list string) :=
  match headers with
  | [] => Done []
  | header :: rest =>
      and_then (of_result (get row header)) (fun value =>
      and_then (csv_cells rest row) (fun cells =>
      Done (csv_value value :: cells)))
  end.

Fixpoint csv_rows (headers : list string) (rows : list val) : outcome (list string) :=
  match rows with
  | [] => Done []
  | row :: rest =>
      and_then (csv_cells headers row) (fun cells =>
      and_then (csv_rows headers rest) (fun lines =>
      Done (join "," cells :: lines)))
  end.

(** [Object.keys(v)] *)
Definition object_keys (v : val) : outcome (list string) :=
  if nullish v then Raise (Thrown TypeError) else Done (keys (own_entries v)).

(** The CSV branch of [writeToFile]: the text written. *)
Definition csv_text (data : val) : outcome string :=
  match data with
  | VArr ((first :: _) as rows) =>
      and_then (object_keys first) (fun headers =>
      and_then (csv_rows headers rows) (fun lines =>
      Done (join (String newline "") (join "," headers :: lines))))
  | _ => Raise (Err "CSV format requires an array of objects")
  end.

(** What ends up in a file. *)
Inductive content : Type :=
  | GzipJson (data : val)      (* [zlib.gzipSync(JSON.stringify(data, null, 2))] *)
  | Json (data : val)          (* [JSON.stringify(data, null, 2)] *)
  | Text (text : string).

(** [writeToFile(data, filepath, fileFormat)]: the content written to
    [filepath].  [detect] is the format that the ['auto'] branch reads off
    the extension of the path. *)
Definition writeToFile (detect : string -> string) (data : val)
    (filepath fileFormat : string) : outcome content :=
  if String.eqb filepath "" then Raise (Err "Filepath is required")
  else
    let fileFormat :=
      if String.eqb fileFormat "auto" then detect filepath else fileFormat in
    if String.eqb fileFormat "json.gz" then Done (GzipJson data)
    else if String.eqb fileFormat "json" then Done (Json data)
    else if String.eqb fileFormat "csv" then
      and_then (csv_text data) (fun text => Done (Text text))
    else Done (Text (to_string data)).

(** [s.split(sep)] for a one-character [sep]. *)
Fixpoint split (sep : ascii) (s : string) : list string :=
  match s with
  | EmptyString => [""]
  | String c s' =>
      if Ascii.eqb c sep then "" :: split sep s'
      else
        match split sep s' with
        | piece :: pieces => String c piece :: pieces
        | [] => [String c ""]
        end
  end.

(** White space and line terminators, as [trim] and [\s] see them. *)
Definition is_space (c : ascii) : bool :=
  let n := nat_of_ascii c in
  (Nat.leb 9 n && Nat.leb n 13) || Nat.eqb n 32 || Nat.eqb n 160.

(** [line.trim()] is truthy: some character of the line is not white
    space. *)
Fixpoint trim_truthy (line : string) : bool :=
  match line with
  | EmptyString => false
  | String c s' => negb (is_space c) || trim_truthy s'
  end.

(** [headers.forEach((header, index) => obj[header] = values[index])].
    Assigning a string or [undefined] to [__proto__] goes to the setter of
    the prototype, which ignores it: the object gets no property. *)
Fixpoint fill (headers : list string) (index : nat) (values : list string)
    (obj : list (string * val)) : list (string * val) :=
  match headers with
  | [] => obj
  | header :: rest =>
      fill rest (S index) values
        (if String.eqb header "__proto__" then obj
         else
           set_own header
             (match nth_error values index with
              | Some s => VStr s
              | None => VUndef
              end) obj)
  end.

(** The CSV branch of [readFromFile], on the text of the file. *)
Definition csv_parse (text : string) : val :=
  let lines := List.filter trim_truthy (split newline text) in
  match lines with
  | [] => VArr []
  | header_line :: rest =>
      let headers := split comma header_line in
      VArr (map (fun line => VObj (fill headers 0 (split comma line) [])) rest)
  end.

End Utils.

(** Vocabulary for the CSV properties. *)

(** A string that the CSV writer leaves as it is. *)
Definition plain (s : string) : bool :=
  negb (Utils.includes Utils.comma s || Utils.includes Utils.dquote s
        || Utils.includes Utils.newline s).

(** The object with the properties [headers], in this order, holding the
    strings [values]. *)
Definition record_of (headers values : list string) : val :=
  VObj (combine headers (map VStr values)).


(** * [main.js]: search queries and plants by id

    A file that a driver saves is recorded by what [writeToFile] is called
    with: the two arguments of the [path.join] that makes its path, and
    what is put into the file.  The path is [path.join(joined_dir,
    joined_name)]; [path.join] resolves the dots and slashes of the name,
    so the file lies in [joined_dir] only when the name has none of them.
    A failed write is thrown into the [catch] of the driver, like a failed
    request.  The pauses and the log lines are left out. *)

Record saved_file : Type := {
  joined_dir : string;
  joined_name : string;
  saved_content : Utils.content
}.

Definition enrichedSuffix (o : options) : string :=
  if enrichment o then "_enriched" else "".

Definition slash : ascii := ascii_of_nat 47.
Definition underscore : ascii := ascii_of_nat 95.

(** [query.replace(/\s+/g, '_')]; [in_run] tells that the character before
    was white space, already replaced. *)
Fixpoint replace_spaces (in_run : bool) (query : string) : string :=
  match query with
  | EmptyString => EmptyString
  | String c rest =>
      if Utils.is_space c then
        if in_run then replace_spaces true rest
        else String underscore (replace_spaces true rest)
      else String c (replace_spaces false rest)
  end.

(** [s.replace(/\//g, '_')] *)
Fixpoint replace_slashes (s : string) : string :=
  match s with
  | EmptyString => EmptyString
  | String c rest =>
      String (if Ascii.eqb c slash then underscore else c) (replace_slashes rest)
  end.

Definition safeQuery (query : string) : string :=
  replace_slashes (replace_spaces false query).

Definition searchDir : string := "datasets/trefle/search".
Definition plantsByIdDir : string := "datasets/trefle/plants_by_id".

Definition search_filename (o : options) (query : string) : string :=
  safeQuery query +:+ "_results" +:+ enrichedSuffix o
    +:+ getFileExtension (format o).

Definition by_id_filename (o : options) (slug plantId : val) : string :=
  Utils.to_string slug +:+ "_" +:+ Utils.to_string plantId
    +:+ enrichedSuffix o +:+ getFileExtension (format o).

Section Drivers.

(** The format that the ['auto'] branch of [writeToFile] reads off a
    path.  Here it is given the two arguments of [path.join] with a slash
    between them, of which the joined path is the normal form. *)
Variable detect : string -> string.

(** [await writeToFile(dataToSave, path.join(dir, name), options.format)] *)
Definition save (dataToSave : val) (dir name : string) (o : options)
    : Utils.outcome saved_file :=
  Utils.and_then
    (Utils.writeToFile detect dataToSave (dir +:+ "/" +:+ name) (format o))
    (fun c =>
       Utils.Done {| joined_dir := dir; joined_name := name;
                     saved_content := c |}).

(** [api.searchPlants(query, { page: 1 })] *)
Variable searchPlants : string -> result page_response.

Variable api : TrefleAPI.
Variable o : options.

(** The body of the [try] of [fetchSearchQueries], for one query: the
    files it saves. *)
Definition search_attempt (query : string) : Utils.outcome (list saved_file) :=
  Utils.and_then (Utils.of_result (searchPlants query)) (fun result =>
  match data result with
  | Some ((_ :: _) as searchResults) =>
      Utils.and_then
        (Utils.of_result
           (if enrichment o then enrichPlantData api searchResults (dryRun o)
            else Ok searchResults)) (fun dataToSave =>
      Utils.and_then
        (save (VArr dataToSave) searchDir (search_filename o query) o)
        (fun file => Utils.Done [file]))
  | _ => Utils.Done []
  end).

Fixpoint search_loop (queries : list string) (saved : list saved_file)
    : list saved_file :=
  match queries with
  | [] => saved
  | query :: rest =>
      if dryRun o then search_loop rest saved
      else
        match search_attempt query with
        | Utils.Done files => search_loop rest (saved ++ files)
        | Utils.Raise _ => search_loop rest saved
        end
  end.

(** [fetchSearchQueries(api, options)] with [options.search = queries]: the
    files saved, in the order of saving. *)
Definition fetchSearchQueries (queries : list string) : list saved_file :=
  match queries with
  | [] => []
  | _ => search_loop queries []
  end.

(** The body of the [try] of [fetchPlantsById], for one id. *)
Definition by_id_attempt (plantId : val) : Utils.outcome (list saved_file) :=
  Utils.and_then (Utils.of_result (getPlant api plantId)) (fun result =>
  Utils.and_then (Utils.of_result (get result "data")) (fun plantData =>
  if truthy plantData then
    let slug :=
      or_else (prop plantData "slug")
        (VStr ("plant_" +:+ Utils.to_string plantId)) in
    Utils.and_then
      (Utils.of_result
         (if enrichment o then flattenPlantData plantData plantData
          else Ok result)) (fun dataToSave =>
    Utils.and_then
      (save dataToSave plantsByIdDir (by_id_filename o slug plantId) o)
      (fun file => Utils.Done [file]))
  else Utils.Done [])).

Fixpoint by_id_loop (plantIds : list val) (saved : list saved_file)
    : list saved_file :=
  match plantIds with
  | [] => saved
  | plantId :: rest =>
      if dryRun o then by_id_loop rest saved
      else
        match by_id_attempt plantId with
        | Utils.Done files => by_id_loop rest (saved ++ files)
        | Utils.Raise _ => by_id_loop rest saved
        end
  end.

(** [fetchPlantsById(api, options)] with [options.plantId = plantIds]. *)
Definition fetchPlantsById (plantIds : list val) : list saved_file :=
  match plantIds with
  | [] => []
  | _ => by_id_loop plantIds []
  end.

End Drivers.

(** A character that [safeQuery] replaces. *)
Definition replaced (c : ascii) : bool := Utils.is_space c || Ascii.eqb c slash.

(** The results of the search for [query], when it resolves with at least
    one. *)
Definition search_results (searchPlants : string -> result page_response)
    (query : string) : option (list val) :=
  match searchPlants query with
  | Ok response =>
      match data response with
      | Some ((_ :: _) as results) => Some results
      | _ => None
      end
  | Throw _ => None
  end.

(** The file of a search saved as plain JSON. *)
Definition search_file (o : options) (query : string) (results : list val)
    : saved_file :=
  {| joined_dir := searchDir;
     joined_name := search_filename o query;
     saved_content := Utils.Json (VArr results) |}.


(** What [fetchPlantsById] saves for one id, if anything.  Nothing in a
    dry run, nothing when the fetch fails or brings no payload, nothing
    when flattening throws, nothing when [writeToFile] refuses the data;
    otherwise the whole response, or with enrichment the payload flattened
    against itself, under the slug of the payload, or [plant_<id>] when it
    has none, followed by the id.  The slug goes into the name as the API
    gave it. *)
Definition by_id_saved (detect : string -> string) (api : TrefleAPI)
    (o : options) (plantId : val) : option saved_file :=
  if dryRun o then None
  else
    match getPlant api plantId with
    | Throw _ => None
    | Ok response =>
        let plantData := prop response "data" in
        if truthy plantData then
          match
            (if enrichment o then flattenPlantData plantData plantData
             else Ok response)
          with
          | Throw _ => None
          | Ok dataToSave =>
              let name :=
                by_id_filename o
                  (or_else (prop plantData "slug")
                     (VStr ("plant_" +:+ Utils.to_string plantId)))
                  plantId in
              match
                Utils.writeToFile detect dataToSave
                  (plantsByIdDir +:+ "/" +:+ name) (format o)
              with
              | Utils.Done c =>
                  Some {| joined_dir := plantsByIdDir;
                          joined_name := name;
                          saved_content := c |}
              | Utils.Raise _ => None
              end
          end
        else None
    end.

(** A trimmed image: the two fields that [flattenPlantData] keeps, one of
    them truthy. *)
Definition trimmed_image (img : val) : Prop :=
  exists image_url copyright,
    img = VObj [("image_url", image_url); ("copyright", copyright)]
    /\ truthy image_url || truthy copyright = true.

(** * [src/api.js]: [getAllPages] and [_buildParams] *)

Module Api.

(** [allData.push(...data)]: the spread takes the elements of an array and
    the characters of a string, and throws on any other truthy value. *)
Definition spread_items (d : val) : result (list val) :=
  match d with
  | VArr l => Ok l
  | VStr s => Ok (map VStr (chars s))
  | _ => Throw TypeError
  end.

(** One turn of the [while (true)] of [getAllPages], after the test of the
    limit: the data so far, and whether there is a next page. *)
Definition page_turn (method : Z -> result val) (page : Z) (allData : list val)
    : result (list val * bool) :=
  let! result := method page in
  let! d := get result "data" in
  let! allData :=
    if truthy d then
      let! items := spread_items d in
      Ok (allData ++ items)
    else Ok allData in
  let! links := get result "links" in
  if truthy links then
    let! next := get links "next" in
    Ok (allData, truthy next)
  else Ok (allData, false).

(** [maxPages && page > maxPages] *)
Definition over_limit (maxPages : option Z) (page : Z) : bool :=
  match maxPages with
  | Some m => negb (m =? 0) && (m <? page)
  | None => false
  end.

Fixpoint pages_loop (fuel : nat) (method : Z -> result val) (maxPages : option Z)
    (page : Z) (allData : list val) : option (Utils.outcome (list val)) :=
  match fuel with
  | O => None
  | S fuel' =>
      if over_limit maxPages page then Some (Utils.Done allData)
      else
        match page_turn method page allData with
        | Throw e => Some (Utils.Raise (Utils.Thrown e))
        | Ok (allData', true) =>
            pages_loop fuel' method maxPages (page + 1) allData'
        | Ok (allData', false) => Some (Utils.Done allData')
        end
  end.

(** [getAllPages(methodName, { maxPages, ...methodOptions })].  [methods]
    gives the function that [this[methodName]] is, if it is one, as a
    function of the page it is called for; [None] of the result is the
    loop still running when the fuel is used up. *)
Definition getAllPages (fuel : nat) (methods : string -> option (Z -> result val))
    (methodName : string) (maxPages : option Z)
    : option (Utils.outcome (list val)) :=
  match methods methodName with
  | None =>
      Some (Utils.Raise
              (Utils.Err ("Method '" +:+ methodName
                          +:+ "' does not exist on TrefleAPI")))
  | Some method => pages_loop fuel method maxPages 1 []
  end.

Section BuildParams.

(** [JSON.stringify] on an object that is not an array. *)
Variable stringify : val -> string.

(** The body of the loop of [_buildParams] over [Object.entries(options)].
    An assignment to [__proto__] goes to the setter of the prototype and
    adds no property. *)
Definition add_param (params : list (string * val)) (entry : string * val)
    : list (string * val) :=
  let '(key, value) := entry in
  if nullish value then params
  else if String.eqb key "__proto__" then params
  else if typeof_object value && negb (isArray value) then
    set_own key (VStr (stringify value)) params
  else set_own key value params.

(** [options] defaults to [{}] when it is [undefined];
    [Object.entries(null)] throws. *)
Definition _buildParams (token : val) (options : val)
    : result (list (string * val)) :=
  match options with
  | VNull => Throw TypeError
  | _ => Ok (fold_left add_param (own_entries options) [("token", token)])
  end.

End BuildParams.

End Api.

(** The items that page [p] of [method] contributes to [getAllPages]. *)
Definition page_items (method : Z -> result val) (p : Z) : list val :=
  match method p with
  | Ok response =>
      if truthy (prop response "data") then
        match Api.spread_items (prop response "data") with
        | Ok items => items
        | Throw _ => []
        end
      else []
  | Throw _ => []
  end.

(** The value that [_buildParams] sends for an option. *)
Definition param_value (stringify : val -> string) (value : val) : val :=
  match value with
  | VObj _ => VStr (stringify value)
  | _ => value
  end.

(** What holds at the head of the loop of [getAllPages], [n] pages having
    been fetched. *)
Definition pages_invariant (method : Z -> result val) (maxPages : option Z)
    (n : nat) (page : Z) (allData : list val) : Prop :=
  page = 1 + Z.of_nat n
  /\ allData = flat_map (page_items method) (pages_from 1 n)
  /\ Forall (fun p => exists response, method p = Ok response) (pages_from 1 n)
  /\ (forall m, maxPages = Some m -> m <> 0 -> Z.of_nat n <= Z.max m 0).

(** A list method with two pages of one plant each. *)
Definition two_page_method (page : Z) : result val :=
  if Z.eqb page 1 then
    Ok (VObj [("data", VArr [plant_of 1]);
              ("links", VObj [("next", VStr "/api/v1/plants?page=2")])])
  else if Z.eqb page 2 then
    Ok (VObj [("data", VArr [plant_of 2]); ("links", VObj [])])
  else Throw ApiError.

(** * [src/config.js]: [callAPI]

    The call of the API method and the call of [writeToFile] are given by
    what they settle to; the log lines are left out. *)






(** * Properties *)

(** ** Objects *)

Lemma lookup_set_own {V : Type} (k k' : string) (v : V) (o : list (string * V)) :
  lookup_own k (set_own k' v o) =
  if String.eqb k k' then Some v else lookup_own k o.
Proof.
  induction o as [|[k0 v0] o IH]; simpl.
  - destruct (String.eqb_spec k k'); reflexivity.
  - destruct (String.eqb_spec k' k0) as [->|Hne]; simpl.
    + destruct (String.eqb_spec k k0); reflexivity.
    + rewrite IH.
      destruct (String.eqb_spec k k0) as [->|]; [|reflexivity].
      destruct (String.eqb_spec k0 k'); congruence.
Qed.

Lemma lookup_own_keys {V : Type} (k : string) (o : list (string * V)) :
  In k (keys o) <-> is_Some (lookup_own k o).
Proof.
  induction o as [|[k0 v0] o IH]; simpl.
  - split; [tauto | intros [? ?]; discriminate].
  - destruct (String.eqb_spec k k0) as [->|Hne].
    + split; [eauto | auto].
    + rewrite <- IH. split; [intros [?|?]; congruence || assumption | auto].
Qed.


(** Index keys are decimal numerals, so no property name of the program
    is one of them. *)
Definition is_digit (c : ascii) : bool :=
  match c with
  | "0" | "1" | "2" | "3" | "4" | "5" | "6" | "7" | "8" | "9" => true
  | _ => false
  end%char.

Fixpoint all_digits (s : string) : bool :=
  match s with
  | EmptyString => true
  | String c s' => is_digit c && all_digits s'
  end.

Lemma pretty_N_go_digits (x : N) (s : string) :
  all_digits s = true -> all_digits (pretty_N_go x s) = true.
Proof.
  revert s. induction (N.lt_wf_0 x) as [x _ IH]; intros s Hs.
  destruct (decide (x = 0)%N) as [->|Hx].
  - rewrite pretty_N_go_0. assumption.
  - rewrite pretty_N_go_step by lia.
    apply IH.
    + apply N.div_lt; lia.
    + simpl. rewrite Hs, andb_true_r.
      unfold pretty_N_char. repeat case_match; reflexivity.
Qed.

Lemma pretty_nat_digits (i : nat) : all_digits (pretty i) = true.
Proof.
  unfold pretty, pretty_nat, pretty, pretty_N.
  case_decide; [reflexivity|].
  apply pretty_N_go_digits. reflexivity.
Qed.

Lemma lookup_indexed_name {V : Type} (k : string) (i : nat) (l : list V) :
  all_digits k = false -> lookup_own k (indexed i l) = None.
Proof.
  intros Hk. revert i. induction l as [|x l IH]; intros i; simpl; [reflexivity|].
  destruct (String.eqb_spec k (pretty i)) as [->|_]; [|apply IH].
  rewrite pretty_nat_digits in Hk. discriminate.
Qed.

(** ** [findFirstSourceWithUrl] *)

Lemma first_with_url_find (l : list val) :
  first_with_url l = Ok (default VNull (find source_with_url l)).
Proof.
  induction l as [|e l IH]; simpl; [reflexivity|].
  destruct e as [| |b|n|s|es|o]; simpl; try exact IH.
  - destruct b; exact IH.
  - destruct (negb (Z.eqb n 0)); exact IH.
  - destruct (negb (String.eqb s "")); exact IH.
  - rewrite lookup_indexed_name by reflexivity. simpl. exact IH.
  - destruct (truthy (default VUndef (lookup_own "url" o))); [reflexivity | exact IH].
Qed.

Lemma find_smallest_index {A : Type} (P : A -> bool) (l : list A) (i : nat) (e : A) :
  l !! i = Some e -> P e = true ->
  (forall j e', (j < i)%nat -> l !! j = Some e' -> P e' = false) ->
  find P l = Some e.
Proof.
  revert i. induction l as [|x l IH]; intros i Hi He Hlt; [destruct i; discriminate|].
  destruct i as [|i]; simpl in *.
  - injection Hi as ->. rewrite He. reflexivity.
  - rewrite (Hlt 0%nat x) by (lia || reflexivity).
    apply (IH i); [assumption | assumption |].
    intros j e' Hj Hl. apply (Hlt (S j) e'); [lia | exact Hl].
Qed.

Lemma find_none {A : Type} (P : A -> bool) (l : list A) :
  Forall (fun e => P e = false) l -> find P l = None.
Proof.
  induction 1 as [|x l Hx _ IH]; simpl; [reflexivity|]. rewrite Hx. exact IH.
Qed.

(** C8.  [findFirstSourceWithUrl] never throws.  On a sequence it returns
    the entry at the smallest index that is a mapping with a truthy [url];
    [null] and other entries that are not mappings are passed over.  On
    [null], on anything that is not a sequence, on the empty sequence and on
    a sequence without such an entry it returns [null]; the result is never
    a sequence. *)
Theorem findFirstSourceWithUrl_earliest (sources : val) :
  exists r,
    findFirstSourceWithUrl sources = Ok r /\
    isArray r = false /\
    (forall l i e,
        sources = VArr l -> l !! i = Some e -> source_with_url e = true ->
        (forall j e', (j < i)%nat -> l !! j = Some e' -> source_with_url e' = false) ->
        r = e) /\
    (isArray sources = false -> r = VNull) /\
    (Forall (fun e => source_with_url e = false) (elems sources) -> r = VNull).
Proof.
  unfold findFirstSourceWithUrl.
  destruct sources as [| |b|n|s|l|o]; simpl;
    try (eexists; repeat split; try reflexivity; intros; discriminate).
  - destruct b; eexists; repeat split; try reflexivity; intros; discriminate.
  - destruct (negb (Z.eqb n 0)); eexists; repeat split; try reflexivity; intros; discriminate.
  - destruct (negb (String.eqb s "")); eexists; repeat split; try reflexivity; intros; discriminate.
  - rewrite first_with_url_find. eexists. split; [reflexivity|].
    split; [|split; [|split]].
    + destruct (find source_with_url l) as [e|] eqn:Hf; [|reflexivity].
      apply find_some in Hf as [_ Hf]. destruct e; simpl in *; congruence.
    + intros l' i e [= <-] Hi He Hlt.
      rewrite (find_smallest_index _ _ _ _ Hi He Hlt). reflexivity.
    + discriminate.
    + intros Hall. rewrite (find_none _ _ Hall). reflexivity.
Qed.

Lemma findFirstSourceWithUrl_earliest_witness :
  exists r,
    findFirstSourceWithUrl
      (VArr [VNull; VObj [("name", VStr "a")]; VObj [("url", VStr "u")];
             VObj [("url", VStr "v")]]) = Ok r /\
    r = VObj [("url", VStr "u")].
Proof.
  destruct (findFirstSourceWithUrl_earliest
              (VArr [VNull; VObj [("name", VStr "a")]; VObj [("url", VStr "u")];
                     VObj [("url", VStr "v")]]))
    as (r & Hr & _ & Hfirst & _ & _).
  exists r. split; [exact Hr|].
  apply (Hfirst _ 2%nat (VObj [("url", VStr "u")]) eq_refl eq_refl eq_refl).
  intros j e' Hj Hl.
  destruct j as [|[|j]]; simpl in Hl; [injection Hl as <- ..|lia]; reflexivity.
Defined.

(** ** [trimPlantSynonyms] *)

Section StoreFacts.
Import Store StoreSpec.
Implicit Types (h : gmap loc cell) (v : hval).

Lemma alloc_spec c h l h' :
  alloc c h = (l, h') -> h !! l = None /\ h' = <[l := c]> h.
Proof.
  unfold alloc. intros [= <- <-]. split; [|reflexivity].
  apply not_elem_of_dom, is_fresh.
Qed.




(** A fresh record is not an array, so allocating it does not change which
    values are arrays. *)
Lemma array_at_alloc_obj h l ps v :
  h !! l = None -> array_at (<[l := CObj ps]> h) v = array_at h v.
Proof.
  intros Hl. destruct v as [| | | | |l']; simpl; try reflexivity.
  destruct (decide (l = l')) as [<-|Hne].
  - rewrite lookup_insert_eq, Hl. reflexivity.
  - rewrite lookup_insert_ne by assumption. reflexivity.
Qed.

Lemma slice0_nonneg {A : Type} (e : Z) (l : list A) :
  0 <= e -> slice0 e l = take (Z.to_nat e) l.
Proof. intros He. unfold slice0. destruct (Z.ltb_spec e 0); [lia | reflexivity]. Qed.









End StoreFacts.


(** *** The store model and the value model agree *)

Local Abbreviation value_trimPlant := trimPlant.
Local Abbreviation value_trimPlantSynonyms := trimPlantSynonyms.

Section Reify.
Import Store StoreSpec.
Implicit Types (h : gmap loc cell) (v : hval).

Lemma all_some_impl {A B : Type} (f g : A -> option B) (l : list A) (ys : list B) :
  (forall x y, f x = Some y -> g x = Some y) ->
  all_some f l = Some ys -> all_some g l = Some ys.
Proof.
  intros Hfg. revert ys. induction l as [|x l IH]; simpl; intros ys; [trivial|].
  destruct (f x) as [y|] eqn:Hx; [|discriminate].
  destruct (all_some f l) as [ys'|]; [|discriminate].
  intros [= <-]. rewrite (Hfg x y Hx), (IH ys' eq_refl). reflexivity.
Qed.

Lemma on_field_impl {A B : Type} (f g : A -> option B) :
  (forall x y, f x = Some y -> g x = Some y) ->
  forall kv q, on_field f kv = Some q -> on_field g kv = Some q.
Proof.
  intros Hfg kv q. unfold on_field.
  destruct (f kv.2) as [y|] eqn:Hy; [|discriminate].
  rewrite (Hfg _ _ Hy). trivial.
Qed.

Lemma all_some_length {A B : Type} (f : A -> option B) (l : list A) (ys : list B) :
  all_some f l = Some ys -> length ys = length l.
Proof.
  revert ys. induction l as [|x l IH]; simpl; intros ys.
  - intros [= <-]. reflexivity.
  - destruct (f x); [|discriminate]. destruct (all_some f l); [|discriminate].
    intros [= <-]. simpl. f_equal. apply IH. reflexivity.
Qed.

Lemma all_some_take {A B : Type} (f : A -> option B) (k : nat) (l : list A)
    (ys : list B) :
  all_some f l = Some ys -> all_some f (take k l) = Some (take k ys).
Proof.
  revert k ys. induction l as [|x l IH]; intros k ys; simpl.
  - intros [= <-]. destruct k; reflexivity.
  - destruct (f x) as [y|] eqn:Hx; [|discriminate].
    destruct (all_some f l) as [ys'|]; [|discriminate].
    intros [= <-]. destruct k as [|k]; simpl; [reflexivity|].
    rewrite Hx, (IH k ys' eq_refl). reflexivity.
Qed.

Lemma all_some_indexed {A B : Type} (f : A -> option B) (i : nat) (l : list A)
    (ys : list B) :
  all_some f l = Some ys ->
  all_some (on_field f) (indexed i l) = Some (indexed i ys).
Proof.
  revert i ys. induction l as [|x l IH]; intros i ys; simpl.
  - intros [= <-]. reflexivity.
  - destruct (f x) as [y|] eqn:Hx; [|discriminate].
    destruct (all_some f l) as [ys'|]; [|discriminate].
    intros [= <-]. unfold on_field at 1. simpl. rewrite Hx.
    rewrite (IH (S i) ys' eq_refl). reflexivity.
Qed.

Lemma all_some_lookup {A B : Type} (f : A -> option B) (k : string)
    (ps : list (string * A)) (qs : list (string * B)) :
  all_some (on_field f) ps = Some qs ->
  lookup_own k qs = lookup_own k ps ≫= f.
Proof.
  revert qs. induction ps as [|[k0 v0] ps IH]; simpl; intros qs.
  - intros [= <-]. reflexivity.
  - unfold on_field at 1. simpl.
    destruct (f v0) as [y|] eqn:Hy; [|discriminate].
    destruct (all_some (on_field f) ps) as [qs'|]; [|discriminate].
    intros [= <-]. simpl.
    destruct (String.eqb k k0); [symmetry; exact Hy | apply IH; reflexivity].
Qed.

Lemma all_some_lookup_some {A B : Type} (f : A -> option B) (k : string)
    (ps : list (string * A)) (qs : list (string * B)) (v : A) :
  all_some (on_field f) ps = Some qs -> lookup_own k ps = Some v ->
  exists y, f v = Some y.
Proof.
  revert qs. induction ps as [|[k0 v0] ps IH]; simpl; intros qs; [discriminate|].
  unfold on_field at 1. simpl.
  destruct (f v0) as [y0|] eqn:Hy0; [|discriminate].
  destruct (all_some (on_field f) ps) as [qs'|]; [|discriminate].
  intros _. destruct (String.eqb k k0).
  - intros [= <-]. eauto.
  - apply (IH qs'). reflexivity.
Qed.

Lemma all_some_set_own {A B : Type} (f : A -> option B) (k : string) (v : A) (y : B)
    (ps : list (string * A)) (qs : list (string * B)) :
  all_some (on_field f) ps = Some qs -> f v = Some y ->
  all_some (on_field f) (set_own k v ps) = Some (set_own k y qs).
Proof.
  intros Hps Hv. revert qs Hps.
  induction ps as [|[k0 v0] ps IH]; simpl; intros qs.
  - intros [= <-]. unfold on_field. simpl. rewrite Hv. reflexivity.
  - unfold on_field at 1. simpl.
    destruct (f v0) as [y0|] eqn:Hy0; [|discriminate].
    destruct (all_some (on_field f) ps) as [qs'|] eqn:Hqs; [|discriminate].
    intros [= <-]. simpl.
    destruct (String.eqb k k0); simpl.
    + unfold on_field at 1. simpl. rewrite Hv, Hqs. reflexivity.
    + unfold on_field at 1. simpl. rewrite Hy0, (IH qs' eq_refl). reflexivity.
Qed.

Lemma reify_fuel (n : nat) h v (x : val) :
  reify n h v = Some x -> reify (S n) h v = Some x.
Proof.
  revert v x. induction n as [|n IH]; intros v x.
  - destruct v; simpl; trivial; discriminate.
  - destruct v as [| | | | |l]; trivial.
    change (reify (S n) h (HRef l)) with
      (match h !! l with
       | Some (CObj ps) =>
           match all_some (on_field (reify n h)) ps with
           | Some qs => Some (VObj qs) | None => None end
       | Some (CArr es) =>
           match all_some (reify n h) es with
           | Some ys => Some (VArr ys) | None => None end
       | None => None
       end).
    change (reify (S (S n)) h (HRef l)) with
      (match h !! l with
       | Some (CObj ps) =>
           match all_some (on_field (reify (S n) h)) ps with
           | Some qs => Some (VObj qs) | None => None end
       | Some (CArr es) =>
           match all_some (reify (S n) h) es with
           | Some ys => Some (VArr ys) | None => None end
       | None => None
       end).
    destruct (h !! l) as [[ps|es]|]; [| |discriminate].
    + destruct (all_some (on_field (reify n h)) ps) as [qs|] eqn:Hqs; [|discriminate].
      rewrite (all_some_impl _ _ _ _ (on_field_impl _ _ IH) Hqs). trivial.
    + destruct (all_some (reify n h) es) as [ys|] eqn:Hys; [|discriminate].
      rewrite (all_some_impl _ _ _ _ IH Hys). trivial.
Qed.

Lemma reify_store (n : nat) h h' v (x : val) :
  h ⊆ h' -> reify n h v = Some x -> reify n h' v = Some x.
Proof.
  intros Hsub. revert v x. induction n as [|n IH]; intros v x.
  - destruct v; simpl; trivial.
  - destruct v as [| | | | |l]; trivial. simpl.
    destruct (h !! l) as [c|] eqn:Hl; [|discriminate].
    rewrite (lookup_weaken _ _ _ _ Hl Hsub).
    destruct c as [ps|es].
    + destruct (all_some (on_field (reify n h)) ps) as [qs|] eqn:Hqs; [|discriminate].
      rewrite (all_some_impl _ _ _ _ (on_field_impl _ _ IH) Hqs). trivial.
    + destruct (all_some (reify n h) es) as [ys|] eqn:Hys; [|discriminate].
      rewrite (all_some_impl _ _ _ _ IH Hys). trivial.
Qed.

Lemma reify_array (n : nat) h v (ys : list val) :
  reify n h v = Some (VArr ys) ->
  exists n' es, n = S n' /\ array_at h v = Some es /\
                all_some (reify n' h) es = Some ys.
Proof.
  destruct n as [|n]; destruct v as [| | | | |l]; simpl; try discriminate.
  destruct (h !! l) as [[ps|es]|]; try discriminate.
  - destruct (all_some _ ps); discriminate.
  - destruct (all_some (reify n h) es) as [ys'|] eqn:Hys; [|discriminate].
    intros [= <-]. exists n, es. repeat split. exact Hys.
Qed.

Lemma reify_of_array (n : nat) h v (x : val) (syn : list hval) :
  reify n h v = Some x -> array_at h v = Some syn -> exists pl, x = VArr pl.
Proof.
  destruct v as [| | | | |l]; simpl; try discriminate.
  destruct n as [|n]; simpl; [discriminate|].
  destruct (h !! l) as [[ps|es]|]; try discriminate.
  destruct (all_some (reify n h) es) as [ys|]; [|discriminate].
  intros [= <-] _. eauto.
Qed.

Lemma reify_not_array (n : nat) h v (x : val) :
  reify n h v = Some x -> array_at h v = None -> isArray x = false.
Proof.
  destruct x; try reflexivity.
  intros Hr Hn. apply reify_array in Hr as (n' & es & _ & Hes & _). congruence.
Qed.

(** The properties that the spread copies denote the own entries of the
    value. *)
Lemma reify_spread (n : nat) h v (x : val) :
  reify n h v = Some x ->
  all_some (on_field (reify n h)) (spread h v) = Some (own_entries x).
Proof.
  destruct v as [| | | |s|l];
    try (destruct n; simpl; intros [= <-]; reflexivity).
  - intros Hx. assert (x = VStr s) as -> by (destruct n; simpl in Hx; congruence).
    simpl. generalize 0%nat.
    induction (chars s) as [|c cs IH]; intros i; simpl; [reflexivity|].
    unfold on_field at 1. simpl.
    destruct n; simpl; rewrite IH; reflexivity.
  - destruct n as [|n]; [discriminate|]. simpl.
    destruct (h !! l) as [[ps|es]|] eqn:Hl; try discriminate.
    + destruct (all_some (on_field (reify n h)) ps) as [qs|] eqn:Hqs; [|discriminate].
      intros [= <-]. simpl.
      exact (all_some_impl _ _ _ _ (on_field_impl _ _ (fun v y => reify_fuel n h v y)) Hqs).
    + destruct (all_some (reify n h) es) as [ys|] eqn:Hys; [|discriminate].
      intros [= <-]. simpl. apply all_some_indexed.
      exact (all_some_impl _ _ _ _ (fun v y => reify_fuel n h v y) Hys).
Qed.

Lemma reify_ref (n : nat) h (l : loc) :
  reify (S n) h (HRef l) =
  match h !! l with
  | Some (CObj ps) =>
      match all_some (on_field (reify n h)) ps with
      | Some qs => Some (VObj qs)
      | None => None
      end
  | Some (CArr es) =>
      match all_some (reify n h) es with
      | Some ys => Some (VArr ys)
      | None => None
      end
  | None => None
  end.
Proof. reflexivity. Qed.

(** The copy of a record denotes the trimmed value of the record. *)
Lemma reify_copy (n : nat) h h' (lc : loc) (fields : list (string * hval))
    (qs : list (string * val)) :
  h ⊆ h' -> h' !! lc = Some (CObj fields) ->
  all_some (on_field (reify n h)) fields = Some qs ->
  reify (S n) h' (HRef lc) = Some (VObj qs).
Proof.
  intros Hsub Hlc Hfields. rewrite reify_ref, Hlc.
  rewrite (all_some_impl _ _ _ _
             (on_field_impl _ _ (fun v y => reify_store n h h' v y Hsub)) Hfields).
  reflexivity.
Qed.

Lemma trimPlant_reify (n : nat) h p (pv : val) (max : Z) :
  0 <= max ->
  reify n h p = Some pv ->
  forall h' c,
    Store.trimPlant max h p = (h', c) ->
    h ⊆ h' /\ reify (S n) h' c = Some (value_trimPlant max pv).
Proof.
  intros Hmax Hp h' c. unfold Store.trimPlant.
  pose proof (reify_spread n h p pv Hp) as Hfields.
  destruct (alloc (CObj (spread h p)) h) as [lc h1] eqn:Ha.
  apply alloc_spec in Ha as [Hlc ->].
  set (fields := spread h p) in *.
  assert (Hsub1 : h ⊆ <[lc := CObj fields]> h) by (apply insert_subseteq; assumption).
  assert (Hsyn : lookup_own "synonyms" fields ≫= array_at (<[lc := CObj fields]> h)
                 = lookup_own "synonyms" fields ≫= array_at h).
  { destruct (lookup_own "synonyms" fields); [|reflexivity].
    apply array_at_alloc_obj; assumption. }
  rewrite Hsyn.
  pose proof (all_some_lookup (reify n h) "synonyms" fields (own_entries pv) Hfields)
    as Hlook.
  unfold value_trimPlant. cbv zeta. rewrite Hlook.
  destruct (lookup_own "synonyms" fields) as [v|] eqn:Hv.
  - destruct (all_some_lookup_some _ _ _ _ _ Hfields Hv) as [x Hx].
    cbn [mbind option_bind]. rewrite Hx. cbn [default from_option id].
    destruct (array_at h v) as [syn|] eqn:Harr.
    + (* the synonyms are a sequence *)
      destruct (reify_of_array n h v x syn Hx Harr) as [pl ->].
      destruct (reify_array n h v pl Hx) as (n' & es & -> & Hes & Hall).
      rewrite Harr in Hes. injection Hes as <-.
      pose proof (all_some_length _ _ _ Hall) as Hlen.
      cbn [isArray andb elems]. unfold len. cbn [elems]. rewrite Hlen.
      destruct (Z.ltb_spec max (Z.of_nat (length syn))) as [Hlong|Hshort].
      * destruct (alloc (CArr (slice0 max syn)) (<[lc := CObj fields]> h))
          as [ls h2] eqn:Hb.
        apply alloc_spec in Hb as [Hls ->].
        intros [= <- <-].
        assert (Hne : lc <> ls).
        { intros <-. rewrite lookup_insert_eq in Hls. discriminate. }
        set (hf := <[lc := CObj (set_own "synonyms" (HRef ls) fields)]>
                     (<[ls := CArr (slice0 max syn)]> (<[lc := CObj fields]> h))).
        assert (Hsubf : h ⊆ hf).
        { apply insert_subseteq_r; [assumption|].
          etrans; [exact Hsub1|]. apply insert_subseteq; assumption. }
        assert (Hf_lc : hf !! lc = Some (CObj (set_own "synonyms" (HRef ls) fields)))
          by (unfold hf; apply lookup_insert_eq).
        assert (Hf_ls : hf !! ls = Some (CArr (slice0 max syn)))
          by (unfold hf; rewrite lookup_insert_ne by assumption;
              apply lookup_insert_eq).
        clearbody hf.
        split; [exact Hsubf|].
        assert (Hslice : reify (S n') hf (HRef ls) = Some (VArr (slice0 max pl))).
        { rewrite reify_ref, Hf_ls.
          rewrite !slice0_nonneg by assumption.
          rewrite (all_some_take _ (Z.to_nat max) syn pl
                     (all_some_impl _ _ _ _
                        (fun v y => reify_store n' h hf v y Hsubf) Hall)).
          reflexivity. }
        rewrite reify_ref, Hf_lc.
        rewrite (all_some_set_own (reify (S n') hf) "synonyms" (HRef ls)
                   (VArr (slice0 max pl)) fields (own_entries pv)
                   (all_some_impl _ _ _ _
                      (on_field_impl _ _
                         (fun v y => reify_store (S n') h hf v y Hsubf)) Hfields)
                   Hslice).
        reflexivity.
      * intros [= <- <-]. split; [exact Hsub1|].
        apply (reify_copy _ h _ lc fields (own_entries pv));
        [exact Hsub1 | apply lookup_insert_eq | exact Hfields].
    + (* the synonyms are not a sequence *)
      intros [= <- <-]. split; [exact Hsub1|].
      rewrite (reify_not_array n h v x Hx Harr). cbn [andb].
      apply (reify_copy _ h _ lc fields (own_entries pv));
        [exact Hsub1 | apply lookup_insert_eq | exact Hfields].
  - (* no synonyms *)
    intros [= <- <-]. split; [exact Hsub1|].
    cbn [mbind option_bind default from_option id isArray andb].
    apply (reify_copy _ h _ lc fields (own_entries pv));
        [exact Hsub1 | apply lookup_insert_eq | exact Hfields].
Qed.

Lemma map_store_reify (n : nat) (max : Z) h0 (es : list hval) :
  0 <= max ->
  forall (pvs : list val) h h' copies,
    h0 ⊆ h ->
    all_some (reify n h0) es = Some pvs ->
    map_store (Store.trimPlant max) h es = (h', copies) ->
    h ⊆ h' /\
    all_some (reify (S n) h') copies = Some (map (value_trimPlant max) pvs).
Proof.
  intros Hmax. induction es as [|p es IH]; intros pvs h h' copies H0;
    cbn [all_some map_store].
  - intros [= <-] [= <- <-]. split; reflexivity.
  - destruct (reify n h0 p) as [pv|] eqn:Hp; [|discriminate].
    destruct (all_some (reify n h0) es) as [pvs'|] eqn:Hes; [|discriminate].
    intros [= <-].
    destruct (Store.trimPlant max h p) as [h1 c] eqn:Htrim.
    destruct (map_store (Store.trimPlant max) h1 es) as [h2 cs] eqn:Hrest.
    intros [= <- <-].
    destruct (trimPlant_reify n h p pv max Hmax (reify_store _ _ _ _ _ H0 Hp)
                h1 c Htrim) as [Hsub1 Hc].
    destruct (IH pvs' h1 h2 cs) as [Hsub2 Hcs];
      [etrans; eassumption | reflexivity | assumption |].
    split; [etrans; eassumption|].
    cbn [all_some map]. rewrite (reify_store _ _ _ _ _ Hsub2 Hc), Hcs. reflexivity.
Qed.

(** The store model refines the value model: what the result of the
    store-level [trimPlantSynonyms] denotes is the value-level
    [trimPlantSynonyms] of what its argument denotes. *)
Lemma trimPlantSynonyms_refines (n : nat) h plants (pv : val) (max : Z) :
  0 <= max ->
  reify n h plants = Some pv ->
  forall h' out,
    Store.trimPlantSynonyms h plants max = (h', out) ->
    reify (S n) h' out = Some (value_trimPlantSynonyms pv max).
Proof.
  intros Hmax Hp h' out. unfold Store.trimPlantSynonyms, value_trimPlantSynonyms.
  destruct (array_at h plants) as [es|] eqn:Harr.
  - destruct (reify_of_array n h plants pv es Hp Harr) as [pvs ->].
    destruct (reify_array n h plants pvs Hp) as (n' & es' & -> & Hes & Hall).
    rewrite Harr in Hes. injection Hes as <-.
    destruct (map_store (Store.trimPlant max) h es) as [h1 copies] eqn:Hmap.
    destruct (alloc (CArr copies) h1) as [lo h2] eqn:Ha.
    apply alloc_spec in Ha as [Hlo ->].
    intros [= <- <-].
    destruct (map_store_reify n' max h es Hmax pvs h h1 copies) as [_ Hcopies];
      [reflexivity | exact Hall | exact Hmap |].
    rewrite reify_ref, lookup_insert_eq.
    rewrite (all_some_impl _ _ _ _
               (fun v y => reify_store (S n') h1 _ v y
                             (insert_subseteq h1 lo (CArr copies) Hlo)) Hcopies).
    reflexivity.
  - intros [= <- <-]. rewrite (reify_fuel n h plants pv Hp).
    rewrite (reify_not_array n h plants pv Hp Harr), orb_true_r. reflexivity.
Qed.

End Reify.



(** ** [flattenPlantData]: closed form *)

Lemma get_prop (v : val) (k : string) :
  nullish v = false -> get v k = Ok (prop v k).
Proof.
  unfold prop. destruct v; simpl; try discriminate; intros _;
    try reflexivity; destruct (String.eqb k "length"); reflexivity.
Qed.

Lemma truthy_not_nullish (v : val) : truthy v = true -> nullish v = false.
Proof. destruct v; simpl; congruence. Qed.

Lemma nullish_or_else (x y : val) :
  nullish y = false -> nullish (or_else x y) = false.
Proof.
  intros Hy. unfold or_else. destruct (truthy x) eqn:Hx; [|exact Hy].
  apply truthy_not_nullish. exact Hx.
Qed.

Lemma get_group (m : val) (g k : string) :
  get (or_else (prop m g) (VObj [])) k = Ok (prop (group m g) k).
Proof. apply get_prop, nullish_or_else. reflexivity. Qed.

Lemma get_opt_prop (v : val) (k : string) : get_opt v k = Ok (prop_opt v k).
Proof.
  unfold get_opt, prop_opt. destruct (nullish v) eqn:Hv; [reflexivity|].
  apply get_prop. exact Hv.
Qed.

Lemma name_of_group (m : val) (g : string) :
  name_of (or_else (prop m g) (VObj [])) = Ok (name_or_self (group m g)).
Proof.
  unfold name_of, name_or_self, group.
  destruct (typeof_object _); [|reflexivity].
  apply get_prop, nullish_or_else. reflexivity.
Qed.

Lemma findFirstSourceWithUrl_find (sources : val) :
  findFirstSourceWithUrl sources =
  Ok (default VNull (find source_with_url (elems sources))).
Proof.
  unfold findFirstSourceWithUrl.
  destruct sources as [| |b|n|s|l|o]; simpl; try reflexivity.
  - destruct b; reflexivity.
  - destruct (negb (Z.eqb n 0)); reflexivity.
  - destruct (negb (String.eqb s "")); reflexivity.
  - apply first_with_url_find.
Qed.

(** Stepping through the straight-line body of [flattenPlantData]: each
    lemma consumes the statement at the head. *)
Lemma step_get (v : val) (k : string) {A : Type} (K : val -> result A) (R : result A) :
  nullish v = false -> K (prop v k) = R -> bind (get v k) K = R.
Proof. intros Hv <-. rewrite (get_prop v k Hv). reflexivity. Qed.

Lemma step_get_group (m : val) (g k : string) {A : Type}
    (K : val -> result A) (R : result A) :
  K (prop (group m g) k) = R ->
  bind (get (or_else (prop m g) (VObj [])) k) K = R.
Proof. intros <-. rewrite get_group. reflexivity. Qed.

Lemma copy_props_fold (src : val) (props : list string) (fl : list (string * val)) :
  nullish src = false ->
  copy_props src props fl =
  Ok (fold_left (fun fl k => set_own k (prop src k) fl) props fl).
Proof.
  intros Hs. unfold copy_props. revert fl.
  induction props as [|k props IH]; intros fl; simpl; [reflexivity|].
  rewrite (get_prop src k Hs). simpl. apply IH.
Qed.

Lemma step_copy_props (src : val) (props : list string) (fl : list (string * val))
    {A : Type} (K : list (string * val) -> result A) (R : result A) :
  nullish src = false ->
  K (fold_left (fun fl k => set_own k (prop src k) fl) props fl) = R ->
  bind (copy_props src props fl) K = R.
Proof. intros Hs <-. rewrite (copy_props_fold _ _ _ Hs). reflexivity. Qed.

Lemma step_assign (m : val) (g k pr : string) (fl : list (string * val))
    {A : Type} (K : list (string * val) -> result A) (R : result A) :
  K (set_own k (prop (group m g) pr) fl) = R ->
  bind (assign k (or_else (prop m g) (VObj [])) pr fl) K = R.
Proof. intros <-. unfold assign. rewrite get_group. reflexivity. Qed.

Lemma step_assign_unit (m : val) (g k pr unit : string) (fl : list (string * val))
    {A : Type} (K : list (string * val) -> result A) (R : result A) :
  K (set_own k (prop_opt (prop (group m g) pr) unit) fl) = R ->
  bind (assign_unit k (or_else (prop m g) (VObj [])) pr unit fl) K = R.
Proof.
  intros <-. unfold assign_unit. rewrite get_group. simpl.
  rewrite get_opt_prop. reflexivity.
Qed.

Lemma step_source (sources : val) {A : Type} (K : val -> result A) (R : result A) :
  K (default VNull (find source_with_url (elems sources))) = R ->
  bind (findFirstSourceWithUrl sources) K = R.
Proof. intros <-. rewrite findFirstSourceWithUrl_find. reflexivity. Qed.

Lemma step_name_of (m : val) (g : string) {A : Type}
    (K : val -> result A) (R : result A) :
  K (name_or_self (group m g)) = R ->
  bind (name_of (or_else (prop m g) (VObj []))) K = R.
Proof. intros <-. rewrite name_of_group. reflexivity. Qed.

Lemma bind_ext {A B : Type} (m : result A) (K K' : A -> result B) :
  (forall a, K a = K' a) -> bind m K = bind m K'.
Proof. intros H. destruct m; simpl; [apply H | reflexivity]. Qed.

Ltac step :=
  cbv beta zeta;
  first [ apply step_assign
        | apply step_assign_unit
        | apply step_get_group
        | apply step_name_of
        | apply step_source ].

Lemma flattenPlantData_closed_form (p d : val) :
  nullish p = false -> nullish d = false ->
  flattenPlantData p d =
  let m := main_species d in
  let! imgs := trim_images (group m "images") in
  let! dists := trim_distributions (group m "distributions") in
  Ok (VObj (flat_record p m imgs dists)).
Proof.
  intros Hp Hd. unfold flattenPlantData, main_species. cbv beta zeta.
  apply step_copy_props; [exact Hp|].
  apply step_get; [exact Hp|]. cbv beta zeta.
  apply step_get; [exact Hd|]. cbv beta zeta.
  apply step_copy_props; [apply nullish_or_else; reflexivity|].
  step. apply bind_ext. intros imgs.
  step. apply bind_ext. intros dists.
  repeat step.
  cbv beta zeta.
  unfold flat_record.
  cbn [map flattening_rules read_rule fst snd fold_left rootProps mainSpeciesProps].
  unfold trimmed_synonyms, first_source. cbv zeta.
  destruct (isArray (or_else (prop p "synonyms") (VArr [])) &&
            (5 <? len (or_else (prop p "synonyms") (VArr [])))); reflexivity.
Qed.

(** ** Distributions: projection, ranking, truncation *)


Lemma mapM_project_inv (l r : list val) :
  mapM project_dist l = Ok r ->
  Forall (fun e => nullish e = false) l /\ r = map project l.
Proof.
  revert r. induction l as [|e l IH]; simpl; intros r.
  - intros [= <-]. split; [constructor | reflexivity].
  - destruct (nullish e) eqn:He.
    + destruct e; discriminate.
    + unfold project_dist at 1. rewrite !(get_prop e) by exact He. simpl.
      destruct (mapM project_dist l) as [r'|] eqn:Hl; simpl; [|discriminate].
      intros [= <-]. destruct (IH r' eq_refl) as [Hall ->].
      split; [constructor; assumption | reflexivity].
Qed.

Lemma count_of_project (e : val) : count_of (project e) = count_of e.
Proof. reflexivity. Qed.

Lemma numeric_count_project (e : val) : numeric_count (project e) <-> numeric_count e.
Proof. reflexivity. Qed.


Lemma by_count_desc_numeric (a b : val) :
  nullish a = false -> nullish b = false ->
  numeric_count a -> numeric_count b ->
  by_count_desc a b = Ok (Some (count_of b - count_of a)).
Proof.
  intros Ha Hb Na Nb. unfold by_count_desc.
  rewrite (get_prop a), (get_prop b) by assumption. simpl.
  unfold numeric_count, count_of in *.
  destruct (prop a "species_count"), (prop b "species_count");
    simpl in *; try contradiction; reflexivity.
Qed.

Section Sorting.

Let ok (e : val) : Prop := nullish e = false.
Let le_desc (a b : val) : Prop := count_of b <= count_of a.



(** Inserting [x] passes exactly the entries with a larger count. *)
Lemma insert_sorted_numeric (x : val) (l : list val) :
  ok x -> numeric_count x -> Forall ok l -> Forall numeric_count l ->
  exists front back,
    l = front ++ back /\
    insert_sorted by_count_desc x l = Ok (front ++ x :: back) /\
    Forall (fun y => count_of x < count_of y) front /\
    (match back with [] => True | y :: _ => count_of y <= count_of x end).
Proof.
  intros Hx Nx Hl Nl. induction Hl as [|y l Hy Hl IH]; simpl.
  - exists [], []. repeat split; constructor.
  - apply Forall_cons in Nl as [Ny Nl].
    rewrite (by_count_desc_numeric x y Hx Hy Nx Ny). simpl.
    destruct (Z.ltb_spec 0 (count_of y - count_of x)) as [Hgt|Hle].
    + destruct (IH Nl) as (front & back & -> & -> & Hfront & Hback). simpl.
      exists (y :: front), back. repeat split; try assumption.
      constructor; [lia | assumption].
    + exists [], (y :: l). repeat split; [constructor | lia].
Qed.

Lemma sorted_insert (x : val) (front back : list val) :
  StronglySorted le_desc (front ++ back) ->
  Forall (fun y => count_of x < count_of y) front ->
  (match back with [] => True | y :: _ => count_of y <= count_of x end) ->
  StronglySorted le_desc (front ++ x :: back).
Proof.
  intros Hs Hfront Hback.
  induction front as [|y front IH]; simpl in *.
  - constructor; [exact Hs|].
    destruct back as [|z back]; [constructor|].
    apply StronglySorted_inv in Hs as [_ Hz].
    constructor; [exact Hback|].
    eapply Forall_impl; [exact Hz|]. unfold le_desc. intros w Hw. simpl in Hw. lia.
  - apply StronglySorted_inv in Hs as [Hs Hy].
    apply Forall_cons in Hfront as [Hxy Hfront].
    constructor; [apply IH; assumption|].
    apply Forall_app in Hy as [Hy1 Hy2].
    apply Forall_app. split; [exact Hy1|].
    constructor; [unfold le_desc; lia | exact Hy2].
Qed.

Lemma filter_passed (c : Z) (x : val) (front : list val) :
  Forall (fun y => count_of x < count_of y) front ->
  has_count c x = true -> filter (has_count c) front = [].
Proof.
  intros Hfront Hc. unfold has_count in Hc. apply Z.eqb_eq in Hc.
  induction Hfront as [|y front Hy _ IH]; [reflexivity|].
  rewrite filter_cons. unfold has_count at 1.
  destruct (decide (Is_true (count_of y =? c))) as [Ht|_]; [|exact IH].
  apply Is_true_eq_true, Z.eqb_eq in Ht. lia.
Qed.

Lemma array_sort_ranked (l : list val) :
  Forall ok l -> Forall numeric_count l ->
  exists s,
    array_sort by_count_desc l = Ok s /\
    Forall ok s /\ Forall numeric_count s /\
    Permutation l s /\
    StronglySorted le_desc s /\
    (forall c, filter (has_count c) s = filter (has_count c) l).
Proof.
  intros Hl Nl. induction Hl as [|x l Hx Hl IH]; simpl.
  - exists []. repeat split; constructor.
  - apply Forall_cons in Nl as [Nx Nl].
    destruct (IH Nl) as (s & -> & Hs & Ns & Hperm & Hsorted & Hstable). simpl.
    destruct (insert_sorted_numeric x s Hx Nx Hs Ns)
      as (front & back & -> & -> & Hfront & Hback).
    exists (front ++ x :: back).
    apply Forall_app in Hs as [Hs1 Hs2]. apply Forall_app in Ns as [Ns1 Ns2].
    split; [reflexivity|].
    split; [apply Forall_app; split; [|constructor]; assumption|].
    split; [apply Forall_app; split; [|constructor]; assumption|].
    split; [rewrite <- Permutation_middle; constructor; exact Hperm|].
    split; [apply sorted_insert; assumption|].
    intros c. rewrite filter_app, !filter_cons, <- Hstable, filter_app.
    destruct (decide (Is_true (has_count c x))) as [Ht|_]; [|reflexivity].
    rewrite (filter_passed c x front Hfront (Is_true_eq_true _ Ht)).
    reflexivity.
Qed.

End Sorting.

Lemma trim_dist_type_eq (ds : val) (acc : list (string * val)) (key : string) :
  nullish ds = false ->
  trim_dist_type ds acc key =
  let! projected := mapM project_dist (elems (or_else (prop ds key) (VArr []))) in
  let! sorted := array_sort by_count_desc projected in
  Ok (match take 5 sorted with
      | [] => acc
      | out => set_own key (VArr out) acc
      end).
Proof.
  intros Hds. unfold trim_dist_type. rewrite (get_prop ds key Hds). simpl.
  destruct (or_else (prop ds key) (VArr [])) as [| | | | |l|]; try reflexivity.
  simpl. unfold len. simpl.
  destruct l as [|e l]; [reflexivity|].
  change (0 <? Z.of_nat (length (e :: l))) with true. cbv iota.
  destruct (mapM project_dist (e :: l)) as [projected|]; [|reflexivity]. simpl.
  destruct (array_sort by_count_desc projected) as [sorted|]; [|reflexivity]. simpl.
  rewrite (slice0_nonneg 5) by lia. change (Z.to_nat 5) with 5%nat.
  destruct (take 5 sorted); reflexivity.
Qed.

Lemma project_ok (l : list val) :
  Forall (fun e => nullish e = false) (map project l).
Proof. apply Forall_forall. intros e He. apply list_elem_of_fmap in He as (x & -> & _). reflexivity. Qed.

Lemma project_numeric (l : list val) :
  Forall numeric_count l -> Forall numeric_count (map project l).
Proof. induction 1; simpl; constructor; assumption. Qed.

(** What one turn of the loop over the two distribution types adds. *)
Lemma trim_dist_type_inv (ds : val) (acc acc' : list (string * val)) (key : string) :
  nullish ds = false ->
  trim_dist_type ds acc key = Ok acc' ->
  exists sorted,
    array_sort by_count_desc
      (map project (elems (or_else (prop ds key) (VArr [])))) = Ok sorted /\
    acc' = match take 5 sorted with
           | [] => acc
           | out => set_own key (VArr out) acc
           end.
Proof.
  intros Hds. rewrite (trim_dist_type_eq ds acc key Hds). cbv zeta.
  destruct (mapM project_dist _) as [projected|] eqn:Hm; simpl; [|discriminate].
  apply mapM_project_inv in Hm as [_ ->].
  destruct (array_sort by_count_desc _) as [sorted|]; simpl; [|discriminate].
  intros [= <-]. exists sorted. split; reflexivity.
Qed.

Lemma flattenPlantData_inv (p d r : val) :
  flattenPlantData p d = Ok r ->
  exists imgs dists,
    trim_images (group (main_species d) "images") = Ok imgs /\
    trim_distributions (group (main_species d) "distributions") = Ok dists /\
    r = VObj (flat_record p (main_species d) imgs dists).
Proof.
  intros Hr.
  assert (Hp : nullish p = false) by (destruct p; try reflexivity; discriminate).
  assert (Hd : nullish d = false).
  { destruct d; try reflexivity; exfalso; revert Hr;
      unfold flattenPlantData; rewrite (copy_props_fold _ _ _ Hp);
      simpl; rewrite (get_prop p _ Hp); discriminate. }
  rewrite (flattenPlantData_closed_form p d Hp Hd) in Hr. cbv zeta in Hr.
  destruct (trim_images _) as [imgs|]; simpl in Hr; [|discriminate].
  destruct (trim_distributions _) as [dists|]; simpl in Hr; [|discriminate].
  injection Hr as <-. exists imgs, dists. repeat split.
Qed.

(** C4.  For each of [native] and [introduced], the value that
    [flattenPlantData] stores under [distributions] is the input sequence
    projected to [{name, species_count}], in non-increasing order of
    [species_count] (a missing count is 0), entries of equal count in their
    original order, cut to at most five entries; and the key is present
    exactly when that sequence is not empty.  Counts are numbers or
    missing. *)
Theorem flattenPlantData_distributions (p d r : val) (key : string) :
  key = "native" \/ key = "introduced" ->
  flattenPlantData p d = Ok r ->
  Forall numeric_count (dist_input d key) ->
  exists dists out,
    prop r "distributions" = VObj dists /\
    ranked (dist_input d key) out /\
    (length out <= 5)%nat /\
    lookup_own key dists =
      match out with
      | [] => None
      | _ => Some (VArr out)
      end.
Proof.
  intros Hkey Hr Hnum.
  apply flattenPlantData_inv in Hr as (imgs & dists & _ & Hdists & ->).
  exists dists.
  set (ds := group (main_species d) "distributions") in *.
  assert (Hds : nullish ds = false) by (apply nullish_or_else; reflexivity).
  unfold trim_distributions in Hdists. simpl in Hdists.
  destruct (trim_dist_type ds [] "native") as [a1|] eqn:H1; simpl in Hdists;
    [|discriminate].
  destruct (trim_dist_type ds a1 "introduced") as [a2|] eqn:H2; simpl in Hdists;
    [|discriminate].
  injection Hdists as <-.
  apply trim_dist_type_inv in H1 as (sN & HsN & ->); [|exact Hds].
  apply trim_dist_type_inv in H2 as (sI & HsI & ->); [|exact Hds].
  unfold dist_input in *. fold ds in Hnum |- *.
  assert (Hrank : forall input s,
             Forall numeric_count input ->
             array_sort by_count_desc (map project input) = Ok s ->
             ranked input (take 5 s)).
  { intros input s Hn Hs.
    destruct (array_sort_ranked (map project input) (project_ok input)
                (project_numeric input Hn))
      as (s' & Hs' & _ & _ & Hperm & Hsorted & Hstable).
    rewrite Hs in Hs'. injection Hs' as <-.
    exists s. repeat split; assumption. }
  destruct Hkey as [-> | ->].
  - exists (take 5 sN).
    split; [reflexivity|]. split; [exact (Hrank _ _ Hnum HsN)|].
    split; [rewrite length_take; lia|].
    destruct (take 5 sI); destruct (take 5 sN); reflexivity.
  - exists (take 5 sI).
    split; [reflexivity|]. split; [exact (Hrank _ _ Hnum HsI)|].
    split; [rewrite length_take; lia|].
    destruct (take 5 sI); destruct (take 5 sN); reflexivity.
Qed.

Lemma flattenPlantData_distributions_witness :
  exists dists out,
    prop sample_flat "distributions" = VObj dists /\
    ranked (dist_input sample_detail "native") out /\
    (length out <= 5)%nat /\
    lookup_own "native" dists =
      match out with
      | [] => None
      | _ => Some (VArr out)
      end.
Proof.
  apply (flattenPlantData_distributions sample_summary sample_detail sample_flat "native").
  - left. reflexivity.
  - vm_compute. reflexivity.
  - vm_compute. repeat constructor.
Defined.

(** ** The keys and values of the flat record *)

Lemma lookup_own_map_rules {R : Type} (f : R -> val) (rules : list (string * R))
    (k : string) (r : R) :
  NoDup (map fst rules) -> In (k, r) rules ->
  lookup_own k (map (fun kr => (kr.1, f kr.2)) rules) = Some (f r).
Proof.
  induction rules as [|[k0 r0] rules IH]; simpl; [contradiction|].
  intros Hnd [Hin|Hin].
  - injection Hin as -> ->. rewrite String.eqb_refl. reflexivity.
  - apply NoDup_cons in Hnd as [Hnotin Hnd].
    destruct (String.eqb_spec k k0) as [->|_]; [|apply IH; assumption].
    exfalso. apply Hnotin. apply list_elem_of_In.
    change k0 with (fst (k0, r)). apply in_map. exact Hin.
Qed.

Lemma flat_keys_NoDup : NoDup flat_keys.
Proof. apply (bool_decide_unpack (NoDup flat_keys)). vm_compute. exact I. Qed.

Lemma flat_record_keys (p m : val) (imgs dists : list (string * val)) :
  keys (flat_record p m imgs dists) = flat_keys.
Proof. reflexivity. Qed.

Lemma flat_record_lookup (p m : val) (imgs dists : list (string * val))
    (k : string) (r : rule) :
  In (k, r) flattening_rules ->
  lookup_own k (flat_record p m imgs dists) = Some (read_rule p m imgs dists r).
Proof. apply lookup_own_map_rules. exact flat_keys_NoDup. Qed.

Lemma group_missing (m : val) (g : string) :
  prop m g = VUndef -> group m g = VObj [].
Proof. unfold group. intros ->. reflexivity. Qed.

Lemma prop_group_missing (m : val) (g k : string) :
  prop m g = VUndef \/ prop (prop m g) k = VUndef ->
  prop (group m g) k = VUndef.
Proof.
  unfold group, or_else. destruct (truthy (prop m g)) eqn:Ht; [|reflexivity].
  intros [H|H]; [rewrite H in Ht; discriminate | exact H].
Qed.

Lemma read_rule_missing (p m : val) (imgs dists : list (string * val)) (r : rule) :
  trim_images (group m "images") = Ok imgs ->
  trim_distributions (group m "distributions") = Ok dists ->
  source_missing p m r ->
  read_rule p m imgs dists r = absence_marker r.
Proof.
  intros Himgs Hdists. destruct r as [k|k|g k|g k u|g| | | |]; simpl.
  - trivial.
  - trivial.
  - apply prop_group_missing.
  - intros [H|[H|H]].
    + rewrite prop_group_missing by (left; exact H). reflexivity.
    + rewrite prop_group_missing by (right; exact H). reflexivity.
    + unfold prop_opt, group, or_else.
      destruct (truthy (prop m g)); [|reflexivity].
      destruct (nullish (prop (prop m g) k)); [reflexivity | exact H].
  - intros H. rewrite (group_missing _ _ H). reflexivity.
  - intros H. unfold trimmed_synonyms. rewrite H. reflexivity.
  - intros H. rewrite (group_missing _ _ H) in Himgs.
    injection Himgs as <-. reflexivity.
  - intros H. rewrite (group_missing _ _ H) in Hdists.
    injection Hdists as <-. reflexivity.
  - intros H. unfold first_source. rewrite H. reflexivity.
Qed.

(** C9, as the code has it.  Whenever [flattenPlantData] returns, the
    record has exactly the keys of the flattening rule set, each holding
    what its rule reads from the inputs.  Where the source path of a rule is
    missing, a copied or flattened field is [undefined], [synonyms] is the
    empty sequence, [images] and [distributions] are empty mappings, and
    [source] is [null]. *)
Theorem flattenPlantData_rule_keys (p d r : val) :
  flattenPlantData p d = Ok r ->
  exists fl imgs dists,
    r = VObj fl /\
    keys fl = flat_keys /\
    (forall k rl, In (k, rl) flattening_rules ->
       lookup_own k fl = Some (read_rule p (main_species d) imgs dists rl)) /\
    (forall k rl, In (k, rl) flattening_rules ->
       source_missing p (main_species d) rl ->
       lookup_own k fl = Some (absence_marker rl)).
Proof.
  intros Hr.
  apply flattenPlantData_inv in Hr as (imgs & dists & Himgs & Hdists & ->).
  exists (flat_record p (main_species d) imgs dists), imgs, dists.
  split; [reflexivity|]. split; [apply flat_record_keys|].
  split.
  - intros k rl Hin. apply flat_record_lookup. exact Hin.
  - intros k rl Hin Hmiss. rewrite (flat_record_lookup _ _ _ _ _ _ Hin).
    f_equal. apply read_rule_missing; assumption.
Qed.

Lemma flattenPlantData_rule_keys_witness :
  exists fl imgs dists,
    sample_flat = VObj fl /\
    keys fl = flat_keys /\
    (forall k rl, In (k, rl) flattening_rules ->
       lookup_own k fl =
       Some (read_rule sample_summary (main_species sample_detail) imgs dists rl)) /\
    (forall k rl, In (k, rl) flattening_rules ->
       source_missing sample_summary (main_species sample_detail) rl ->
       lookup_own k fl = Some (absence_marker rl)).
Proof.
  apply (flattenPlantData_rule_keys sample_summary sample_detail sample_flat).
  vm_compute. reflexivity.
Defined.

(** The claim as the specification words it fails on empty inputs: with
    their source paths missing, [source] is [null], [images] and
    [distributions] are empty mappings and [synonyms] is an empty
    sequence; none of them is [undefined]. *)
Lemma absent_is_not_always_undefined :
  exists r,
    flattenPlantData (VObj []) (VObj []) = Ok r /\
    prop r "source" = VNull /\
    prop r "images" = VObj [] /\
    prop r "distributions" = VObj [] /\
    prop r "synonyms" = VArr [] /\
    ~ (prop r "source" = VUndef).
Proof.
  eexists. split; [vm_compute; reflexivity|].
  repeat split; discriminate.
Qed.

(** ** A detail record without [main_species] *)

Lemma main_species_absent (dprops : list (string * val)) :
  lookup_own "main_species" dprops = None ->
  main_species (VObj dprops) = VObj [].
Proof.
  intros H. unfold main_species, group, prop. simpl. rewrite H. reflexivity.
Qed.

(** C2, as the code has it.  For a detail record without [main_species],
    [flattenPlantData] returns a record in which every field read from the
    detail record, [rank] and [observations] among them, is [undefined],
    [images] and [distributions] are empty mappings, [source] is [null],
    [synonyms] holds the first five synonyms of the summary, and every
    other field copied from the summary equals the summary's field. *)
Theorem flattenPlantData_without_main_species
    (p : val) (dprops : list (string * val)) :
  nullish p = false ->
  lookup_own "main_species" dprops = None ->
  exists fl,
    flattenPlantData p (VObj dprops) = Ok (VObj fl) /\
    keys fl = flat_keys /\
    (forall k rl, In (k, rl) flattening_rules ->
       lookup_own k fl = Some (without_main_species p rl)).
Proof.
  intros Hp Hms.
  rewrite (flattenPlantData_closed_form p (VObj dprops) Hp eq_refl).
  rewrite (main_species_absent dprops Hms). cbv zeta.
  change (trim_images (group (VObj []) "images")) with (Ok (@nil (string * val))).
  change (trim_distributions (group (VObj []) "distributions"))
    with (Ok (@nil (string * val))).
  cbn [bind].
  eexists. split; [reflexivity|]. split; [apply flat_record_keys|].
  intros k rl Hin. rewrite (flat_record_lookup _ _ _ _ _ _ Hin).
  f_equal. destruct rl; reflexivity.
Qed.

Lemma flattenPlantData_without_main_species_witness :
  exists fl,
    flattenPlantData sample_summary (VObj [("id", VNum 123)]) = Ok (VObj fl) /\
    keys fl = flat_keys /\
    (forall k rl, In (k, rl) flattening_rules ->
       lookup_own k fl = Some (without_main_species sample_summary rl)).
Proof.
  apply (flattenPlantData_without_main_species sample_summary [("id", VNum 123)]);
    reflexivity.
Defined.

(** The claim as the specification words it fails: without
    [main_species] the summary's [rank] is overwritten by [undefined], the
    seven synonyms of the summary are cut to five, and [source], [images]
    and [distributions] are not [undefined]. *)
Lemma summary_rank_overwritten :
  exists r,
    flattenPlantData sample_summary (VObj []) = Ok r /\
    prop sample_summary "rank" = VStr "species" /\
    prop r "rank" = VUndef /\
    ~ (prop r "rank" = prop sample_summary "rank") /\
    ~ (prop r "synonyms" = prop sample_summary "synonyms") /\
    ~ (prop r "source" = VUndef) /\
    ~ (prop r "images" = VUndef).
Proof.
  eexists. split; [vm_compute; reflexivity|].
  repeat split; discriminate.
Qed.

(** ** When [flattenPlantData] returns, and when it throws *)












(** C1: the defect.  A [null] entry in an image list, or in a distribution
    list, makes [flattenPlantData] throw, whatever the summary is. *)
Theorem flattenPlantData_null_entry_throws :
  (forall p, flattenPlantData p detail_null_image = Throw TypeError) /\
  (forall p, flattenPlantData p detail_null_distribution = Throw TypeError).
Proof.
  split; intros p; destruct (nullish p) eqn:Hp.
  - destruct p; try discriminate; reflexivity.
  - rewrite (flattenPlantData_closed_form p detail_null_image Hp eq_refl).
    reflexivity.
  - destruct p; try discriminate; reflexivity.
  - rewrite (flattenPlantData_closed_form p detail_null_distribution Hp eq_refl).
    reflexivity.
Qed.

(** ** [enrichPlantData] *)









(** The scenario of the specification, evaluated: three plants, the
    second detail fetch fails, the second output record is the summary. *)
Example enrich_three_plants :
  exists o1 o3,
    enrichPlantData sample_api [plant_of 1; plant_of 2; plant_of 3] false
      = Ok [o1; plant_of 2; o3] /\
    o1 <> plant_of 1 /\ o3 <> plant_of 3.
Proof.
  eexists _, _. split; [vm_compute; reflexivity|]. split; discriminate.
Qed.



(** ** [fetchPlants] *)

Lemma fetch_page_basic (api : TrefleAPI) (o : options) (st : loop_state)
    (pagePlants : list val) (l : val) :
  enrichment o = false ->
  pagePlants <> [] ->
  getPlants api (page st) = Ok {| data := Some pagePlants; links := l |} ->
  fetch_page api o st = Ok (Some (map (trimPlant 5) pagePlants, has_next l)).
Proof.
  intros He Hne Hget. unfold fetch_page. rewrite Hget, He. simpl.
  destruct pagePlants as [|p ps]; [congruence|]. simpl.
  unfold has_next. destruct (truthy l) eqn:Hl; simpl; [|rewrite Hl; reflexivity].
  rewrite (get_prop l "next" (truthy_not_nullish l Hl)). reflexivity.
Qed.

Lemma fetch_page_no_data (api : TrefleAPI) (o : options) (st : loop_state) (l : val)
    (d : option (list val)) :
  d = None \/ d = Some [] ->
  getPlants api (page st) = Ok {| data := d; links := l |} ->
  fetch_page api o st = Ok None.
Proof.
  intros Hd Hget. unfold fetch_page. rewrite Hget. simpl.
  destruct Hd as [-> | ->]; reflexivity.
Qed.

(** One turn of the loop in basic mode, on a page that has data. *)
Lemma fetch_step_page (api : TrefleAPI) (o : options) (st : loop_state)
    (pagePlants : list val) (l : val) :
  limit_reached o st = false -> dryRun o = false -> enrichment o = false ->
  pagePlants <> [] ->
  getPlants api (page st) = Ok {| data := Some pagePlants; links := l |} ->
  fetch_step api o st =
  let st1 := {| page := page st;
                pagesFetched := pagesFetched st + 1;
                batchData := batchData st ++ map (trimPlant 5) pagePlants;
                batchStartPage := batchStartPage st;
                written := written st |} in
  let st2 :=
    if Z.eqb (Z.rem (pagesFetched st1) 10) 0 then
      {| page := page st;
         pagesFetched := pagesFetched st + 1;
         batchData := [];
         batchStartPage := page st + 1;
         written := written (writeToFile o st1 (page st)) |}
    else st1 in
  if has_next l then
    ({| page := page st + 1;
        pagesFetched := pagesFetched st2;
        batchData := batchData st2;
        batchStartPage := batchStartPage st2;
        written := written st2 |}, Continue)
  else
    (if 0 <? Z.of_nat (length (batchData st2))
     then writeToFile o st2 (page st) else st2, Break).
Proof.
  intros Hlim Hdry Henr Hne Hget. unfold fetch_step.
  rewrite Hlim, Hdry, (fetch_page_basic api o st pagePlants l Henr Hne Hget).
  unfold batchSize. rewrite Henr. cbv zeta.
  destruct (Z.eqb _ 0); reflexivity.
Qed.

(** One turn of the loop on a page without data: the loop ends, and
    nothing is written, whatever the open batch holds. *)
Lemma fetch_step_no_data (api : TrefleAPI) (o : options) (st : loop_state)
    (d : option (list val)) (l : val) :
  limit_reached o st = false -> dryRun o = false ->
  d = None \/ d = Some [] ->
  getPlants api (page st) = Ok {| data := d; links := l |} ->
  fetch_step api o st = (st, Break).
Proof.
  intros Hlim Hdry Hd Hget. unfold fetch_step.
  rewrite Hlim, Hdry, (fetch_page_no_data api o st l d Hd Hget). reflexivity.
Qed.

(** One turn of the loop on a page whose fetch fails: the open batch is
    written before the loop ends. *)
Lemma fetch_step_failure (api : TrefleAPI) (o : options) (st : loop_state) (e : error) :
  limit_reached o st = false -> dryRun o = false ->
  getPlants api (page st) = Throw e ->
  fetch_step api o st =
  (if 0 <? Z.of_nat (length (batchData st))
   then writeToFile o st (page st - 1) else st, Break).
Proof.
  intros Hlim Hdry Hget. unfold fetch_step, fetch_page.
  rewrite Hlim, Hdry, Hget. reflexivity.
Qed.

(** The turn of the loop that finds the page limit reached: the open batch
    is written before the loop ends. *)
Lemma fetch_step_limit (api : TrefleAPI) (o : options) (st : loop_state) :
  limit_reached o st = true -> dryRun o = false ->
  fetch_step api o st =
  (if 0 <? Z.of_nat (length (batchData st))
   then writeToFile o st (page st - 1) else st, Break).
Proof.
  intros Hlim Hdry. unfold fetch_step. rewrite Hlim, Hdry.
  rewrite andb_true_r. reflexivity.
Qed.



(** C3: the defect.  When a page comes back without data, the loop ends
    at once; the records of the pages before it, still in the open batch,
    are not written. *)
Theorem fetchPlants_empty_page_drops_batch
    (api : TrefleAPI) (o : options) (p : val) (ps : list val)
    (l1 l2 : val) (d : option (list val)) (fuel : nat) :
  plants o = true -> enrichment o = false ->
  startPage o = 1 -> pages o = None -> dryRun o = false ->
  getPlants api 1 = Ok {| data := Some (p :: ps); links := l1 |} ->
  has_next l1 = true ->
  getPlants api 2 = Ok {| data := d; links := l2 |} ->
  d = None \/ d = Some [] ->
  (2 <= fuel)%nat ->
  fetchPlants fuel api o = Some [].
Proof.
  intros Hplants Henr Hstart Hpages Hdry H1 Hn1 H2 Hd Hfuel.
  destruct fuel as [|[|fuel]]; try lia.
  assert (Hlim : forall st, limit_reached o st = false)
    by (intros st; unfold limit_reached; rewrite Hpages; reflexivity).
  unfold fetchPlants, initial_state. rewrite Hplants, Hstart. simpl negb. cbv iota.
  cbn [fetch_loop].
  rewrite (fetch_step_page api o _ (p :: ps) l1 (Hlim _) Hdry Henr)
    by (discriminate || exact H1).
  rewrite Hn1. cbn [page pagesFetched batchData batchStartPage written app].
  change (Z.rem (0 + 1) 10 =? 0) with false.
  cbv iota zeta. cbn [page pagesFetched batchData batchStartPage written app].
  rewrite (fetch_step_no_data api o _ d l2 (Hlim _) Hdry Hd) by exact H2.
  reflexivity.
Qed.

Lemma fetchPlants_empty_page_drops_batch_witness :
  fetchPlants 2 sample_api sample_options = Some [].
Proof.
  apply (fetchPlants_empty_page_drops_batch sample_api sample_options
           (plant_of 1) [plant_of 2]
           (VObj [("next", VStr "/api/v1/plants?page=2")])
           (VObj [("next", VNull)]) (Some []) 2);
    first [reflexivity | lia | right; reflexivity].
Defined.

(** For contrast, the sibling exit: when the fetch of the second page
    fails instead, the same open batch is written as pages 1-1. *)
Example fetchPlants_failed_page_flushes :
  fetchPlants 2 failing_second_page sample_options =
  Some [ {| contents := map (trimPlant 5) [plant_of 1; plant_of 2];
            directory := "datasets/trefle/plants";
            filename := "plants_pages_1-1.json";
            file_format := "json" |} ].
Proof. vm_compute. reflexivity. Qed.

(** ** The unit tests of the repository, replayed on the embedding *)

Section UnitTests.

Let seven : val :=
  VArr [VStr "syn1"; VStr "syn2"; VStr "syn3"; VStr "syn4"; VStr "syn5";
        VStr "syn6"; VStr "syn7"].

Let mockPaginatedData : val :=
  VObj [("id", VNum 123); ("common_name", VStr "Test Plant");
        ("slug", VStr "test-plant"); ("scientific_name", VStr "Testus plantus");
        ("year", VNum 2020); ("rank", VStr "species");
        ("observations", VStr "Test observations"); ("vegetable", VBool false);
        ("synonyms", seven)].

Let mockDetailedData : val :=
  VObj [("main_species",
    VObj [("rank", VStr "species");
          ("observations", VStr "Detailed observations");
          ("edible", VBool true);
          ("images", VObj [("flower",
             VArr [VObj [("image_url", VStr "flower1.jpg"); ("copyright", VStr "Copyright 1")];
                   VObj [("image_url", VStr "flower2.jpg"); ("copyright", VStr "Copyright 2")];
                   VObj [("image_url", VStr "flower3.jpg"); ("copyright", VStr "Copyright 3")]])]);
          ("distributions",
             VObj [("native",
                      VArr [VObj [("name", VStr "North America"); ("species_count", VNum 100)];
                            VObj [("name", VStr "Europe"); ("species_count", VNum 50)]]);
                   ("introduced",
                      VArr [VObj [("name", VStr "Asia"); ("species_count", VNum 30)]])]);
          ("flower", VObj [("color", VArr [VStr "Red"]); ("conspicuous", VBool true)]);
          ("sources", VArr [VObj [("name", VStr "Source 1")];
                            VObj [("name", VStr "Source 2"); ("url", VStr "https://source.com")]]);
          ("specifications", VObj [("ligneous_type", VStr "Herbaceous");
                                   ("average_height", VObj [("cm", VNum 50)])]);
          ("growth", VObj [("description", VStr "Test growth");
                           ("days_to_harvest", VNum 90)]);
          ("genus", VObj [("name", VStr "Testus")]);
          ("family", VObj [("name", VStr "Testaceae")])])].

(** [flattenPlantData(paginated, detailed).k] *)
Let flat (p d : val) (k : string) : result val :=
  let! r := flattenPlantData p d in get r k.

Example test_trim_not_an_array :
  trimPlantSynonyms VNull 5 = VNull /\
  trimPlantSynonyms VUndef 5 = VUndef /\
  trimPlantSynonyms (VStr "string") 5 = VStr "string".
Proof. repeat split. Qed.

Example test_trim_default_max :
  trimPlantSynonyms (VArr [VObj [("scientific_name", VStr "Test Plant"); ("synonyms", seven)]]) 5
  = VArr [VObj [("scientific_name", VStr "Test Plant");
                ("synonyms", VArr [VStr "syn1"; VStr "syn2"; VStr "syn3"; VStr "syn4"; VStr "syn5"])]].
Proof. reflexivity. Qed.

Example test_trim_custom_max :
  trimPlantSynonyms (VArr [VObj [("synonyms", seven)]]) 3
  = VArr [VObj [("synonyms", VArr [VStr "syn1"; VStr "syn2"; VStr "syn3"])]].
Proof. reflexivity. Qed.

Example test_trim_fewer_than_max :
  trimPlantSynonyms (VArr [VObj [("synonyms", VArr [VStr "syn1"; VStr "syn2"])]]) 5
  = VArr [VObj [("synonyms", VArr [VStr "syn1"; VStr "syn2"])]].
Proof. reflexivity. Qed.

Example test_trim_without_synonyms :
  trimPlantSynonyms (VArr [VObj [("scientific_name", VStr "Test Plant")]]) 5
  = VArr [VObj [("scientific_name", VStr "Test Plant")]].
Proof. reflexivity. Qed.

Example test_source_not_an_array :
  findFirstSourceWithUrl VNull = Ok VNull /\
  findFirstSourceWithUrl VUndef = Ok VNull /\
  findFirstSourceWithUrl (VStr "string") = Ok VNull /\
  findFirstSourceWithUrl (VArr []) = Ok VNull.
Proof. repeat split. Qed.

Example test_source_first_with_url :
  findFirstSourceWithUrl
    (VArr [VObj [("name", VStr "Source 1")];
           VObj [("name", VStr "Source 2"); ("url", VStr "https://example.com")];
           VObj [("name", VStr "Source 3"); ("url", VStr "https://other.com")]])
  = Ok (VObj [("name", VStr "Source 2"); ("url", VStr "https://example.com")]).
Proof. reflexivity. Qed.

Example test_source_none_with_url :
  findFirstSourceWithUrl
    (VArr [VObj [("name", VStr "Source 1")]; VObj [("name", VStr "Source 2")]])
  = Ok VNull.
Proof. reflexivity. Qed.

Example test_source_skips_null :
  findFirstSourceWithUrl
    (VArr [VNull; VObj [("name", VStr "Valid"); ("url", VStr "https://test.com")]])
  = Ok (VObj [("name", VStr "Valid"); ("url", VStr "https://test.com")]).
Proof. reflexivity. Qed.

Example test_flatten_root_properties :
  flat mockPaginatedData mockDetailedData "id" = Ok (VNum 123) /\
  flat mockPaginatedData mockDetailedData "common_name" = Ok (VStr "Test Plant") /\
  flat mockPaginatedData mockDetailedData "scientific_name" = Ok (VStr "Testus plantus") /\
  flat mockPaginatedData mockDetailedData "slug" = Ok (VStr "test-plant").
Proof. repeat split; vm_compute; reflexivity. Qed.

Example test_flatten_synonyms :
  flat mockPaginatedData mockDetailedData "synonyms"
  = Ok (VArr [VStr "syn1"; VStr "syn2"; VStr "syn3"; VStr "syn4"; VStr "syn5"]).
Proof. vm_compute. reflexivity. Qed.

Example test_flatten_genus_family :
  flat mockPaginatedData mockDetailedData "genus" = Ok (VStr "Testus") /\
  flat mockPaginatedData mockDetailedData "family" = Ok (VStr "Testaceae").
Proof. split; vm_compute; reflexivity. Qed.

Example test_flatten_prefixes :
  flat mockPaginatedData mockDetailedData "flower_color" = Ok (VArr [VStr "Red"]) /\
  flat mockPaginatedData mockDetailedData "flower_conspicuous" = Ok (VBool true) /\
  flat mockPaginatedData mockDetailedData "spec_ligneous_type" = Ok (VStr "Herbaceous") /\
  flat mockPaginatedData mockDetailedData "spec_average_height_cm" = Ok (VNum 50) /\
  flat mockPaginatedData mockDetailedData "growth_description" = Ok (VStr "Test growth") /\
  flat mockPaginatedData mockDetailedData "growth_days_to_harvest" = Ok (VNum 90).
Proof. repeat split; vm_compute; reflexivity. Qed.

Example test_flatten_source :
  flat mockPaginatedData mockDetailedData "source"
  = Ok (VObj [("name", VStr "Source 2"); ("url", VStr "https://source.com")]).
Proof. vm_compute. reflexivity. Qed.

Example test_flatten_images :
  flat mockPaginatedData mockDetailedData "images"
  = Ok (VObj [("flower",
          VArr [VObj [("image_url", VStr "flower1.jpg"); ("copyright", VStr "Copyright 1")];
                VObj [("image_url", VStr "flower2.jpg"); ("copyright", VStr "Copyright 2")]])]).
Proof. vm_compute. reflexivity. Qed.

Example test_flatten_distributions :
  flat mockPaginatedData mockDetailedData "distributions"
  = Ok (VObj [("native",
                 VArr [VObj [("name", VStr "North America"); ("species_count", VNum 100)];
                       VObj [("name", VStr "Europe"); ("species_count", VNum 50)]]);
              ("introduced",
                 VArr [VObj [("name", VStr "Asia"); ("species_count", VNum 30)]])]).
Proof. vm_compute. reflexivity. Qed.

Example test_flatten_missing_main_species :
  flat mockPaginatedData (VObj []) "id" = Ok (VNum 123) /\
  flat mockPaginatedData (VObj []) "genus" = Ok VUndef.
Proof. split; vm_compute; reflexivity. Qed.

Example test_flatten_string_genus :
  flat mockPaginatedData (VObj [("main_species", VObj [("genus", VStr "Testus")])]) "genus"
  = Ok (VStr "Testus").
Proof. vm_compute. reflexivity. Qed.

End UnitTests.

(** * Further properties of the code *)

(** ** [fetchPlants]: the loop as a whole *)


(** In a dry run the loop ends by itself, at the latest after fifteen
    turns; it asks the API nothing and writes nothing. *)
Lemma fetch_loop_dry (api : TrefleAPI) (o : options) (fuel : nat) (st : loop_state) :
  dryRun o = true -> written st = [] ->
  (Z.to_nat (15 - pagesFetched st) <= fuel)%nat -> (1 <= fuel)%nat ->
  exists st', fetch_loop fuel api o st = Some st' /\ written st' = [].
Proof.
  intros Hdry. revert st. induction fuel as [|fuel IH]; intros st Hw Hm Hf; [lia|].
  cbn [fetch_loop]. unfold fetch_step. rewrite Hdry.
  destruct (limit_reached o st).
  - rewrite andb_false_r. eauto.
  - cbn [pagesFetched].
    destruct (Z.leb_spec 15 (pagesFetched st + 1)) as [Hdone|Hmore].
    + eexists. split; [reflexivity | exact Hw].
    + apply IH; cbn [written pagesFetched]; [exact Hw | lia | lia].
Qed.

(** X1. A dry run of [fetchPlants] writes no file and ends by itself, after
    the fifteen pages it previews at most, whatever the API and the other
    options are. *)
Theorem fetchPlants_dry_run (api : TrefleAPI) (o : options) (fuel : nat) :
  dryRun o = true -> (15 <= fuel)%nat ->
  fetchPlants fuel api o = Some [].
Proof.
  intros Hdry Hfuel. unfold fetchPlants.
  destruct (plants o); [|reflexivity]. cbn [negb].
  destruct (fetch_loop_dry api o fuel (initial_state o) Hdry eq_refl)
    as (st' & -> & ->); [cbn; lia | lia | reflexivity].
Qed.

Lemma fetchPlants_dry_run_witness :
  fetchPlants 15 endless_api dry_options = Some [].
Proof. apply (fetchPlants_dry_run endless_api dry_options 15); [reflexivity | lia]. Defined.

Lemma pages_from_snoc (p : Z) (n : nat) :
  pages_from p (S n) = pages_from p n ++ [p + Z.of_nat n].
Proof.
  revert p. induction n as [|n IH]; intros p.
  - simpl. f_equal. lia.
  - change (pages_from p (S (S n))) with (p :: pages_from (p + 1) (S n)).
    rewrite IH. simpl. do 3 f_equal. lia.
Qed.

Lemma consecutive_snoc (size s s' e : Z) (c : list val) (bs : list (Z * Z * list val)) :
  consecutive size s bs -> s' = chain_end s bs -> s' <= e -> e - s' + 1 <= size ->
  consecutive size s (bs ++ [(s', e, c)]) /\
  chain_end s (bs ++ [(s', e, c)]) = e + 1.
Proof.
  revert s. induction bs as [|[[s0 e0] c0] bs IH]; intros s; simpl.
  - intros _ -> He Hsize. repeat split; assumption || lia.
  - intros (Hs0 & Hle & Hsz & Hrest) Hend He Hsize.
    destruct (IH (e0 + 1) Hrest Hend He Hsize) as [Hc Hce].
    repeat split; assumption.
Qed.

Lemma batchSize_pos (o : options) : 0 < batchSize o.
Proof. unfold batchSize. destruct (enrichment o); lia. Qed.

Lemma flat_map_snoc {A B : Type} (f : A -> list B) (l : list A) (x : A) :
  flat_map f (l ++ [x]) = flat_map f l ++ f x.
Proof. rewrite flat_map_app. simpl. rewrite app_nil_r. reflexivity. Qed.

Lemma pages_from_app (p : Z) (a b : nat) :
  pages_from p (a + b) = pages_from p a ++ pages_from (p + Z.of_nat a) b.
Proof.
  revert p. induction a as [|a IH]; intros p.
  - simpl. f_equal. lia.
  - change (pages_from p (S a + b)) with (p :: pages_from (p + 1) (a + b)).
    rewrite IH. simpl. do 3 f_equal. lia.
Qed.

Lemma flat_map_pages_split {B : Type} (f : Z -> list B) (p x y : Z) :
  0 <= x -> x <= y ->
  flat_map f (pages_from p (Z.to_nat y)) =
  flat_map f (pages_from p (Z.to_nat x))
    ++ flat_map f (pages_from (p + x) (Z.to_nat (y - x))).
Proof.
  intros Hx Hxy.
  replace (Z.to_nat y) with (Z.to_nat x + Z.to_nat (y - x))%nat by lia.
  rewrite pages_from_app, flat_map_app, Z2Nat.id by exact Hx. reflexivity.
Qed.


Lemma mod_succ (a b : Z) :
  0 <= a -> 0 < b ->
  ((a + 1) mod b = 0 /\ a mod b = b - 1) \/
  ((a + 1) mod b = a mod b + 1 /\ a mod b + 1 < b).
Proof.
  intros Ha Hb.
  pose proof (Z.mod_pos_bound a b Hb) as Hr.
  pose proof (Z.div_mod a b ltac:(lia)) as Hq.
  destruct (Z.eq_dec (a mod b + 1) b) as [Heq|Hne].
  - left. split; [|lia].
    symmetry. apply (Z.mod_unique_pos (a + 1) b (a / b + 1) 0); lia.
  - right. split; [|lia].
    symmetry. apply (Z.mod_unique_pos (a + 1) b (a / b) (a mod b + 1)); lia.
Qed.



Section FetchLoop.

Variables (api : TrefleAPI) (o : options).
Hypothesis Hdry : dryRun o = false.








(** A turn that fetches a page with data: the state it leaves the loop
    variables in, before the question of a next page. *)
Lemma page_turn (st : loop_state) (records : list val) :
  loop_invariant api o st ->
  page_records api o (page st) = records ->
  let st1 := {| page := page st;
                pagesFetched := pagesFetched st + 1;
                batchData := batchData st ++ records;
                batchStartPage := batchStartPage st;
                written := written st |} in
  let st2 :=
    if Z.eqb (Z.rem (pagesFetched st1) (batchSize o)) 0 then
      let saved := writeToFile o st1 (page st1) in
      {| page := page saved;
         pagesFetched := pagesFetched saved;
         batchData := [];
         batchStartPage := page saved + 1;
         written := written saved |}
    else st1 in
  page st2 = page st /\
  pagesFetched st2 = pagesFetched st + 1 /\
  startPage o <= batchStartPage st2 /\
  batchStartPage st2 <= page st + 1 /\
  page st + 1 - batchStartPage st2 = (pagesFetched st + 1) mod batchSize o /\
  batchData st2 =
    flat_map (page_records api o)
      (pages_from (batchStartPage st2)
         (Z.to_nat (page st + 1 - batchStartPage st2))) /\
  exists bs,
    written st2 = map (batch_file o) bs /\
    consecutive (batchSize o) (startPage o) bs /\
    chain_end (startPage o) bs = batchStartPage st2 /\
    Forall (holds_its_pages api o) bs /\
    flat_map contents (written st2) =
      flat_map (page_records api o)
        (pages_from (startPage o)
           (Z.to_nat (batchStartPage st2 - startPage o))).
Proof.
  intros (Hpf & Hpage & Hmod & Hon & Hbatch & bs & Hw & Hchain & Hend & Hholds & Hkept)
         Hrec.
  pose proof (batchSize_pos o) as HB.
  pose proof (Z.mod_pos_bound (pagesFetched st) (batchSize o) HB) as Hbound.
  pose proof (Z.mod_le (pagesFetched st) (batchSize o) Hpf HB) as Hle.
  assert (Hopen : batchData st ++ records =
                  flat_map (page_records api o)
                    (pages_from (batchStartPage st)
                       (Z.to_nat (page st + 1 - batchStartPage st)))).
  { replace (Z.to_nat (page st + 1 - batchStartPage st))
      with (S (Z.to_nat (page st - batchStartPage st))) by lia.
    rewrite pages_from_snoc, flat_map_snoc, <- Hbatch.
    rewrite Z2Nat.id by lia.
    replace (batchStartPage st + (page st - batchStartPage st)) with (page st)
      by lia.
    rewrite Hrec. reflexivity. }
  cbv zeta. cbn [pagesFetched page].
  rewrite Z.rem_mod_nonneg by lia.
  destruct (mod_succ (pagesFetched st) (batchSize o) Hpf HB)
    as [[Hfull Hlast] | [Hnext Hroom]].
  - rewrite Hfull. cbn [Z.eqb].
    unfold writeToFile.
    cbn [page pagesFetched batchData batchStartPage written].
    destruct (consecutive_snoc (batchSize o) (startPage o) (batchStartPage st)
                (page st) (batchData st ++ records) bs Hchain (eq_sym Hend))
      as [Hchain' Hend']; [lia | lia |].
    split; [reflexivity|]. split; [reflexivity|]. split; [lia|].
    split; [lia|]. split; [lia|].
    split; [rewrite Z.sub_diag; reflexivity|].
    exists (bs ++ [(batchStartPage st, page st, batchData st ++ records)]).
    split; [rewrite Hw, map_app; reflexivity|].
    split; [exact Hchain'|]. split; [exact Hend'|].
    split.
    + apply Forall_app. split; [exact Hholds|].
      constructor; [|constructor]. unfold holds_its_pages. cbn [fst snd].
      rewrite Hopen. do 2 f_equal. lia.
    + rewrite flat_map_snoc. cbn [contents].
      rewrite (flat_map_pages_split _ (startPage o)
                 (batchStartPage st - startPage o)
                 (page st + 1 - startPage o)) by lia.
      rewrite Hkept, Hopen. do 3 f_equal; lia.
  - rewrite Hnext.
    destruct (Z.eqb_spec (pagesFetched st mod batchSize o + 1) 0) as [Hz|_]; [lia|].
    cbn [page pagesFetched batchData batchStartPage written].
    split; [reflexivity|]. split; [reflexivity|]. split; [lia|].
    split; [lia|]. split; [lia|].
    split; [exact Hopen|].
    exists bs. repeat split; assumption.
Qed.



End FetchLoop.

Lemma limit_not_reached (o : options) (st : loop_state) :
  limit_reached o st = false ->
  forall m, pages o = Some m -> 0 < m -> pagesFetched st + 1 <= m.
Proof.
  unfold limit_reached. intros Hlim m Hm Hpos. rewrite Hm in Hlim.
  destruct (Z.eqb_spec m 0); [lia|]. simpl in Hlim.
  apply Z.leb_gt in Hlim. lia.
Qed.




Lemma fetch_step_continue (api : TrefleAPI) (o : options) (st st' : loop_state) :
  dryRun o = false ->
  fetch_step api o st = (st', Continue) ->
  limit_reached o st = false /\ pagesFetched st' = pagesFetched st + 1.
Proof.
  intros Hdry. unfold fetch_step. rewrite Hdry.
  destruct (limit_reached o st); [discriminate|].
  destruct (fetch_page api o st) as [[[records next]|]|e]; try discriminate.
  destruct next; [|discriminate].
  intros [= <-]. split; [reflexivity|].
  cbn [pagesFetched]. destruct (Z.eqb _ 0); reflexivity.
Qed.

Lemma fetch_loop_limit (api : TrefleAPI) (o : options) (m : Z) (fuel : nat)
    (st : loop_state) :
  dryRun o = false -> pages o = Some m -> 0 < m ->
  (Z.to_nat (m - pagesFetched st) < fuel)%nat ->
  exists st', fetch_loop fuel api o st = Some st'.
Proof.
  intros Hdry Hm Hpos. revert st.
  induction fuel as [|fuel IH]; intros st Hfuel; [lia|].
  cbn [fetch_loop].
  destruct (fetch_step api o st) as [st1 [|]] eqn:Hstep; [|eauto].
  destruct (fetch_step_continue api o st st1 Hdry Hstep) as [Hlim Hpf].
  pose proof (limit_not_reached o st Hlim m Hm Hpos).
  apply IH. lia.
Qed.

(** X4. With a page limit the loop always ends, whatever the API answers:
    one turn per page up to the limit, and one more to notice it. *)
Theorem fetchPlants_terminates_with_limit
    (api : TrefleAPI) (o : options) (m : Z) (fuel : nat) :
  dryRun o = false -> pages o = Some m -> 0 < m ->
  (Z.to_nat m < fuel)%nat ->
  exists files, fetchPlants fuel api o = Some files.
Proof.
  intros Hdry Hm Hpos Hfuel. unfold fetchPlants.
  destruct (plants o); cbn [negb]; [|eauto].
  destruct (fetch_loop_limit api o m fuel (initial_state o) Hdry Hm Hpos)
    as [st ->]; [cbn; lia | eauto].
Qed.

Lemma fetchPlants_terminates_with_limit_witness :
  exists files, fetchPlants 13 endless_api limited_options = Some files.
Proof.
  apply (fetchPlants_terminates_with_limit endless_api limited_options 12 13);
    first [reflexivity | lia].
Defined.


(** ** Writing and reading CSV *)

Section CsvTests.
Import Utils.

Let q : string := String dquote "".
Let nl : string := String newline "".

Example test_write_csv :
  csv_text (VArr [VObj [("name", VStr "Alice"); ("age", VNum 30)];
                  VObj [("name", VStr "Bob"); ("age", VNum 25)]])
  = Done ("name,age" +:+ nl +:+ "Alice,30" +:+ nl +:+ "Bob,25").
Proof. vm_compute. reflexivity. Qed.

Example test_write_csv_escapes :
  csv_text (VArr [VObj [("name", VStr "Hello, World");
                        ("description", VStr ("Say " +:+ q +:+ "hello" +:+ q))]])
  = Done ("name,description" +:+ nl +:+
          q +:+ "Hello, World" +:+ q +:+ "," +:+
          q +:+ "Say " +:+ q +:+ q +:+ "hello" +:+ q +:+ q +:+ q).
Proof. vm_compute. reflexivity. Qed.

Example test_write_csv_not_an_array :
  writeToFile (fun _ => "txt") (VObj [("single", VStr "object")]) "invalid.csv" "csv"
  = Raise (Err "CSV format requires an array of objects").
Proof. reflexivity. Qed.

Example test_write_no_filepath :
  writeToFile (fun _ => "txt") (VObj [("data", VStr "test")]) "" "auto"
  = Raise (Err "Filepath is required").
Proof. reflexivity. Qed.

Example test_read_csv :
  csv_parse ("col1,col2" +:+ nl +:+ "a,b" +:+ nl +:+ "c,d")
  = VArr [VObj [("col1", VStr "a"); ("col2", VStr "b")];
          VObj [("col1", VStr "c"); ("col2", VStr "d")]].
Proof. vm_compute. reflexivity. Qed.

End CsvTests.

Section Csv.
Import Utils.

Lemma includes_app (c : ascii) (a b : string) :
  includes c (a +:+ b) = includes c a || includes c b.
Proof.
  induction a as [|c' a IH]; simpl; [reflexivity|].
  rewrite IH, orb_assoc. reflexivity.
Qed.

Lemma includes_join (c sep : ascii) (l : list string) :
  Ascii.eqb sep c = false ->
  Forall (fun s => includes c s = false) l ->
  includes c (join (String sep "") l) = false.
Proof.
  intros Hsep. induction 1 as [|x l Hx Hl IH]; [reflexivity|].
  destruct l as [|y l]; [exact Hx|].
  change (join (String sep "") (x :: y :: l))
    with (x +:+ String sep "" +:+ join (String sep "") (y :: l)).
  rewrite !includes_app, Hx, IH. simpl. rewrite Hsep. reflexivity.
Qed.

Lemma split_none (sep : ascii) (s : string) :
  includes sep s = false -> split sep s = [s].
Proof.
  induction s as [|c s IH]; simpl; [reflexivity|].
  intros [Hc Hs]%orb_false_elim. rewrite Hc, (IH Hs). reflexivity.
Qed.

Lemma split_app (sep : ascii) (x rest : string) :
  includes sep x = false ->
  split sep (x +:+ String sep rest) = x :: split sep rest.
Proof.
  induction x as [|c x IH]; simpl.
  - intros _. rewrite Ascii.eqb_refl. reflexivity.
  - intros [Hc Hx]%orb_false_elim. rewrite Hc, (IH Hx). reflexivity.
Qed.

Lemma split_join (sep : ascii) (l : list string) :
  l <> [] ->
  Forall (fun s => includes sep s = false) l ->
  split sep (join (String sep "") l) = l.
Proof.
  intros Hne Hl. induction Hl as [|x l Hx Hl IH]; [congruence|].
  destruct l as [|y l]; [apply split_none, Hx|].
  change (join (String sep "") (x :: y :: l))
    with (x +:+ String sep (join (String sep "") (y :: l))).
  rewrite (split_app _ _ _ Hx), IH by discriminate. reflexivity.
Qed.

Lemma csv_value_plain (s : string) : plain s = true -> csv_value (VStr s) = s.
Proof.
  unfold plain, csv_value. cbn [nullish to_string].
  intros H%negb_true_iff. rewrite H. reflexivity.
Qed.

Lemma csv_cells_lookup (headers values : list string) (o : list (string * val)) :
  Forall2 (fun h s => lookup_own h o = Some (VStr s) /\ plain s = true)
    headers values ->
  csv_cells headers (VObj o) = Done values.
Proof.
  induction 1 as [|h s headers values [Hh Hs] _ IH]; [reflexivity|].
  cbn [csv_cells get of_result and_then]. rewrite Hh, IH.
  cbn [default from_option id and_then]. rewrite (csv_value_plain _ Hs).
  reflexivity.
Qed.

Lemma lookup_combine_Forall2 (headers values : list string) (o : list (string * val)) :
  (forall h, In h headers ->
     lookup_own h o = lookup_own h (combine headers (map VStr values))) ->
  NoDup headers -> length values = length headers ->
  Forall2 (fun h s => lookup_own h o = Some (VStr s)) headers values.
Proof.
  revert values. induction headers as [|h headers IH];
    intros [|s values] Ho Hnd Hlen; try discriminate; constructor.
  - rewrite (Ho h) by (left; reflexivity). simpl.
    rewrite String.eqb_refl. reflexivity.
  - apply NoDup_cons in Hnd as [Hh Hnd].
    apply IH; [|exact Hnd|simpl in Hlen; lia].
    intros h' Hin. rewrite (Ho h') by (right; exact Hin). simpl.
    destruct (String.eqb_spec h' h) as [->|_]; [|reflexivity].
    exfalso. apply Hh, list_elem_of_In, Hin.
Qed.

Lemma csv_cells_record (headers values : list string) :
  NoDup headers -> length values = length headers ->
  Forall (fun s => plain s = true) values ->
  csv_cells headers (record_of headers values) = Done values.
Proof.
  intros Hnd Hlen Hplain. apply csv_cells_lookup.
  pose proof (lookup_combine_Forall2 headers values _ (fun _ _ => eq_refl) Hnd Hlen)
    as Hlook.
  revert Hlook. generalize (combine headers (map VStr values)) as o.
  intros o Hlook. clear Hnd Hlen.
  induction Hlook as [|h s hs vs Hh _ IH]; constructor.
  - split; [exact Hh | apply (Forall_inv Hplain)].
  - apply IH, (Forall_inv_tail Hplain).
Qed.

Lemma csv_rows_records (headers : list string) (table : list (list string)) :
  NoDup headers ->
  Forall (fun values => length values = length headers
                        /\ Forall (fun s => plain s = true) values) table ->
  csv_rows headers (map (record_of headers) table) = Done (map (join ",") table).
Proof.
  intros Hnd. induction 1 as [|values table [Hlen Hplain] _ IH]; [reflexivity|].
  cbn [map csv_rows]. rewrite (csv_cells_record _ _ Hnd Hlen Hplain), IH.
  reflexivity.
Qed.

Lemma set_own_fresh {V : Type} (k : string) (v : V) (o : list (string * V)) :
  ~ In k (keys o) -> set_own k v o = o ++ [(k, v)].
Proof.
  induction o as [|[k' v'] o IH]; simpl; [reflexivity|].
  intros Hk. destruct (String.eqb_spec k k') as [->|_]; [tauto|].
  rewrite IH by tauto. reflexivity.
Qed.

Lemma fill_fresh (headers : list string) :
  forall (pre values : list string) (obj : list (string * val)),
  NoDup headers -> (forall h, In h headers -> ~ In h (keys obj)) ->
  ~ In "__proto__" headers ->
  length values = length headers ->
  fill headers (length pre) (pre ++ values) obj
  = obj ++ combine headers (map VStr values).
Proof.
  induction headers as [|h headers IH];
    intros pre [|s values] obj Hnd Hobj Hproto Hlen; try discriminate; simpl.
  - rewrite app_nil_r. reflexivity.
  - destruct (String.eqb_spec h "__proto__") as [->|_];
      [exfalso; apply Hproto; left; reflexivity|].
    rewrite nth_error_app2, Nat.sub_diag by lia. cbn [nth_error].
    rewrite set_own_fresh by (apply Hobj; left; reflexivity).
    apply NoDup_cons in Hnd as [Hh Hnd].
    replace (pre ++ s :: values) with ((pre ++ [s]) ++ values)
      by (rewrite <- app_assoc; reflexivity).
    replace (S (length pre)) with (length (pre ++ [s]))
      by (rewrite length_app; simpl; lia).
    rewrite IH, <- app_assoc;
      [reflexivity|exact Hnd| |intros Hin; apply Hproto; right; exact Hin
      |simpl in Hlen; lia].
    intros h' Hin. unfold keys. rewrite map_app, in_app_iff. simpl.
    intros [Hk|[->|[]]]; [apply (Hobj h'); [right; exact Hin|exact Hk]|].
    apply Hh, list_elem_of_In, Hin.
Qed.

Lemma plain_no_comma (s : string) : plain s = true -> includes comma s = false.
Proof.
  unfold plain. intros H%negb_true_iff.
  apply orb_false_elim in H as [H _]. apply orb_false_elim in H as [H _].
  exact H.
Qed.

Lemma plain_no_newline (s : string) : plain s = true -> includes newline s = false.
Proof.
  unfold plain. intros H%negb_true_iff.
  apply orb_false_elim in H as [_ H]. exact H.
Qed.

Lemma filter_keeps_all {A : Type} (f : A -> bool) (l : list A) :
  Forall (fun x => f x = true) l -> List.filter f l = l.
Proof.
  induction 1 as [|x l Hx _ IH]; simpl; [reflexivity|].
  rewrite Hx, IH. reflexivity.
Qed.

(** X5. A table of plain strings survives the CSV file: written by
    [writeToFile] and read back by [readFromFile], it is the same array of
    objects.  The table has at least one row and one column, every row
    has the columns of the first in the same order, no header holds a
    comma or a line feed, is a numeral or is [__proto__], no value holds a
    comma, a double quote or a line feed, and no printed line is blank. *)
Theorem csv_round_trip (headers : list string) (table : list (list string)) :
  NoDup headers -> headers <> [] -> table <> [] ->
  Forall (fun h => includes comma h = false /\ includes newline h = false
                   /\ all_digits h = false /\ h <> "__proto__")
    headers ->
  Forall (fun values => length values = length headers
                        /\ Forall (fun s => plain s = true) values) table ->
  trim_truthy (join "," headers) = true ->
  Forall (fun values => trim_truthy (join "," values) = true) table ->
  exists text,
    csv_text (VArr (map (record_of headers) table)) = Done text
    /\ csv_parse text = VArr (map (record_of headers) table).
Proof.
  intros Hnd Hhs Htable Hheaders Hrows Hhead Hlines.
  assert (Hkeys : forall values, length values = length headers ->
            keys (combine headers (map VStr values)) = headers).
  { intros values Hlen. unfold keys.
    change (map fst (combine headers (map VStr values)))
      with ((combine headers (map VStr values)).*1).
    apply fst_zip. rewrite length_map. lia. }
  destruct table as [|first rest] eqn:Etable; [congruence|]. rewrite <- Etable in *.
  assert (Hfirst : length first = length headers).
  { rewrite Etable in Hrows. apply (Forall_inv Hrows). }
  exists (join (String newline "") (join "," headers :: map (join ",") table)).
  split.
  - rewrite Etable at 1. cbn [map csv_text].
    unfold object_keys. cbn [record_of nullish own_entries and_then].
    rewrite (Hkeys _ Hfirst).
    change (record_of headers first :: map (record_of headers) rest)
      with (map (record_of headers) (first :: rest)).
    rewrite <- Etable, (csv_rows_records _ _ Hnd Hrows). reflexivity.
  - unfold csv_parse.
    rewrite split_join; [|discriminate|].
    + rewrite filter_keeps_all.
      2:{ constructor; [exact Hhead|]. apply Forall_map. exact Hlines. }
      change "," with (String comma "").
      rewrite split_join; [|exact Hhs|].
      2:{ eapply Forall_impl; [exact Hheaders|]. intros h [Hc _]. exact Hc. }
      assert (Hproto : ~ In "__proto__" headers).
      { intros Hin%list_elem_of_In. rewrite Forall_forall in Hheaders.
        destruct (Hheaders _ Hin) as (_ & _ & _ & Hne). congruence. }
      f_equal. rewrite map_map. apply map_ext_Forall.
      eapply Forall_impl; [exact Hrows|]. intros values [Hlen Hplain].
      unfold record_of. f_equal.
      rewrite split_join.
      * apply (fill_fresh headers [] values []);
          [exact Hnd|intros ? ? []|exact Hproto|exact Hlen].
      * intros ->. destruct headers; [congruence|discriminate].
      * eapply Forall_impl; [exact Hplain|]. apply plain_no_comma.
    + constructor.
      * change "," with (String comma "").
        apply includes_join; [reflexivity|].
        eapply Forall_impl; [exact Hheaders|]. intros h (_ & Hn & _). exact Hn.
      * apply Forall_map. eapply Forall_impl; [exact Hrows|].
        intros values [_ Hplain]. change "," with (String comma "").
        apply includes_join; [reflexivity|].
        eapply Forall_impl; [exact Hplain|]. apply plain_no_newline.
Qed.

Lemma csv_round_trip_witness :
  exists text,
    csv_text (VArr (map (record_of ["name"; "family"])
                      [["Quercus robur"; "Fagaceae"]; ["Acer rubrum"; ""]]))
    = Done text
    /\ csv_parse text
       = VArr (map (record_of ["name"; "family"])
                 [["Quercus robur"; "Fagaceae"]; ["Acer rubrum"; ""]]).
Proof.
  apply (csv_round_trip ["name"; "family"]
           [["Quercus robur"; "Fagaceae"]; ["Acer rubrum"; ""]]).
  - apply (bool_decide_unpack (NoDup ["name"; "family"])). vm_compute. exact I.
  - discriminate.
  - discriminate.
  - repeat constructor; discriminate.
  - repeat constructor.
  - reflexivity.
  - repeat constructor.
Defined.

Lemma split_pieces (sep : ascii) (s : string) :
  Forall (fun piece => includes sep piece = false) (split sep s).
Proof.
  induction s as [|c s IH]; simpl; [repeat constructor|].
  destruct (Ascii.eqb c sep) eqn:Hc; [constructor; [reflexivity|exact IH]|].
  destruct (split sep s) as [|piece pieces]; [repeat constructor; simpl; rewrite Hc; reflexivity|].
  constructor; [|apply (Forall_inv_tail IH)].
  simpl. rewrite Hc. apply (Forall_inv IH).
Qed.

Lemma split_keeps_out (c sep : ascii) (s : string) :
  includes c s = false ->
  Forall (fun piece => includes c piece = false) (split sep s).
Proof.
  induction s as [|c' s IH]; simpl; [repeat constructor|].
  intros [Hc Hs]%orb_false_elim. specialize (IH Hs).
  destruct (Ascii.eqb c' sep); [constructor; [reflexivity|exact IH]|].
  destruct (split sep s) as [|piece pieces];
    [repeat constructor; simpl; rewrite Hc; reflexivity|].
  constructor; [|apply (Forall_inv_tail IH)].
  simpl. rewrite Hc. apply (Forall_inv IH).
Qed.

Lemma set_own_Forall {V : Type} (P : string * V -> Prop) (k : string) (v : V)
    (o : list (string * V)) :
  P (k, v) -> Forall P o -> Forall P (set_own k v o).
Proof.
  intros Hv. induction 1 as [|[k' v'] o Hkv Ho IH]; simpl; [repeat constructor; exact Hv|].
  destruct (String.eqb k k'); constructor; assumption.
Qed.

Lemma fill_Forall (P : val -> Prop) (headers : list string) :
  forall (index : nat) (values : list string) (obj : list (string * val)),
  P VUndef -> Forall (fun s => P (VStr s)) values ->
  Forall (fun kv => P kv.2) obj ->
  Forall (fun kv => P kv.2) (fill headers index values obj).
Proof.
  induction headers as [|h headers IH]; intros index values obj Hu Hvalues Hobj;
    simpl; [exact Hobj|].
  apply IH; [exact Hu|exact Hvalues|].
  destruct (String.eqb h "__proto__"); [exact Hobj|].
  apply (set_own_Forall (fun kv => P kv.2)); [|exact Hobj]. simpl.
  destruct (nth_error values index) as [s|] eqn:Hs; [|exact Hu].
  apply nth_error_In in Hs. rewrite Forall_forall in Hvalues.
  apply Hvalues, list_elem_of_In, Hs.
Qed.

(** X6. Whatever the text of the file, every value that the CSV branch of
    [readFromFile] returns is [undefined] or a string without a comma and
    without a line feed: the reader does not undo the quoting of the
    writer, so a value with a comma never comes back. *)
Theorem readFromFile_csv_values (text : string) :
  exists rows,
    csv_parse text = VArr rows
    /\ Forall (fun row => exists o,
                 row = VObj o
                 /\ Forall (fun kv =>
                              kv.2 = VUndef
                              \/ exists s, kv.2 = VStr s
                                           /\ includes comma s = false
                                           /\ includes newline s = false) o)
         rows.
Proof.
  unfold csv_parse.
  pose proof (split_pieces newline text) as Hlines.
  assert (Hfilter : Forall (fun line => includes newline line = false)
                      (List.filter trim_truthy (split newline text))).
  { rewrite Forall_forall in *. intros line Hin%list_elem_of_In.
    apply filter_In in Hin as [Hin _]. apply Hlines, list_elem_of_In, Hin. }
  destruct (List.filter trim_truthy (split newline text)) as [|header_line rest].
  - exists []. split; [reflexivity|constructor].
  - eexists. split; [reflexivity|].
    apply Forall_map. eapply Forall_impl; [exact (Forall_inv_tail Hfilter)|].
    intros line Hline. eexists. split; [reflexivity|].
    apply (fill_Forall (fun v => v = VUndef
             \/ exists s, v = VStr s /\ includes comma s = false
                          /\ includes newline s = false));
      [left; reflexivity| |constructor].
    pose proof (split_pieces comma line) as Hc.
    pose proof (split_keeps_out newline comma line Hline) as Hn.
    rewrite Forall_forall in *. intros s Hs. right. exists s. auto.
Qed.

Lemma double_quotes_end_inj (a b : string) :
  double_quotes a +:+ String dquote "" = double_quotes b +:+ String dquote "" ->
  a = b.
Proof.
  revert b. induction a as [|c a IH]; intros [|c' b]; simpl.
  - reflexivity.
  - destruct (Ascii.eqb_spec c' dquote) as [->|Hne]; simpl; intros [= H];
      congruence.
  - destruct (Ascii.eqb_spec c dquote) as [->|Hne]; simpl; intros [= H];
      congruence.
  - destruct (Ascii.eqb_spec c dquote) as [->|Hne],
             (Ascii.eqb_spec c' dquote) as [->|Hne']; simpl; intros H;
      inversion H; subst; try congruence; f_equal; auto.
Qed.

(** X7. The CSV writer prints two different strings as two different
    cells: the quoting loses nothing. *)
Theorem csv_value_injective (a b : string) :
  csv_value (VStr a) = csv_value (VStr b) -> a = b.
Proof.
  unfold csv_value. cbn [nullish to_string].
  destruct (includes comma a || includes dquote a || includes newline a) eqn:Ha,
           (includes comma b || includes dquote b || includes newline b) eqn:Hb.
  - simpl. intros [= H]. apply double_quotes_end_inj, H.
  - intros <-. apply orb_false_elim in Hb as [Hb _].
    apply orb_false_elim in Hb as [_ Hb]. discriminate.
  - intros ->. apply orb_false_elim in Ha as [Ha _].
    apply orb_false_elim in Ha as [_ Ha]. discriminate.
  - auto.
Qed.

Lemma csv_value_injective_witness :
  csv_value (VStr "a,b") = csv_value (VStr "a,b") /\ "a,b" = "a,b".
Proof.
  split; [reflexivity|]. apply (csv_value_injective "a,b" "a,b"). reflexivity.
Defined.




(** In a format given by name and other than csv, [writeToFile] refuses
    no data. *)
Lemma writeToFile_accepts (detect : string -> string) (data : val)
    (filepath fileFormat : string) :
  filepath <> "" -> fileFormat <> "csv" -> fileFormat <> "auto" ->
  exists c, writeToFile detect data filepath fileFormat = Done c.
Proof.
  intros Hpath Hcsv Hauto. unfold writeToFile.
  destruct (String.eqb_spec filepath ""); [contradiction|].
  destruct (String.eqb_spec fileFormat "auto"); [contradiction|].
  destruct (String.eqb fileFormat "json.gz"); [eauto|].
  destruct (String.eqb fileFormat "json"); [eauto|].
  destruct (String.eqb_spec fileFormat "csv"); [contradiction|eauto].
Qed.

End Csv.

(** ** Search queries and plants by id *)

Lemma underscore_kept (c : ascii) : replaced c = true -> Ascii.eqb underscore c = false.
Proof.
  intros Hc. destruct (Ascii.eqb_spec underscore c) as [<-|]; [|reflexivity].
  discriminate.
Qed.

Lemma safe_includes (c : ascii) (query : string) (in_run : bool) :
  replaced c = true ->
  Utils.includes c (replace_slashes (replace_spaces in_run query)) = false.
Proof.
  intros Hc. revert in_run. induction query as [|x query IH]; intros in_run;
    [reflexivity|].
  cbn [replace_spaces]. destruct (Utils.is_space x) eqn:Hx.
  - destruct in_run; [apply IH|].
    cbn [replace_slashes Utils.includes]. rewrite IH.
    change (Ascii.eqb underscore slash) with false. cbn iota.
    rewrite (underscore_kept _ Hc). reflexivity.
  - cbn [replace_slashes Utils.includes]. rewrite IH, orb_false_r.
    destruct (Ascii.eqb_spec x slash) as [->|Hne]; [apply underscore_kept, Hc|].
    destruct (Ascii.eqb_spec x c) as [<-|]; [|reflexivity].
    unfold replaced in Hc. rewrite Hx in Hc. simpl in Hc.
    apply Ascii.eqb_eq in Hc. contradiction.
Qed.

Lemma safe_fixed (s : string) (in_run : bool) :
  (forall c, replaced c = true -> Utils.includes c s = false) ->
  replace_slashes (replace_spaces in_run s) = s.
Proof.
  revert in_run. induction s as [|x s IH]; intros in_run Hs; [reflexivity|].
  assert (Hx : replaced x = false).
  { destruct (replaced x) eqn:Hx; [|reflexivity].
    specialize (Hs x Hx). simpl in Hs. rewrite Ascii.eqb_refl in Hs.
    discriminate. }
  apply orb_false_elim in Hx as [Hspace Hslash].
  cbn [replace_spaces]. rewrite Hspace. cbn [replace_slashes]. rewrite Hslash.
  f_equal. apply IH. intros c Hc. specialize (Hs c Hc). simpl in Hs.
  apply orb_false_elim in Hs as [_ Hs]. exact Hs.
Qed.

(** X9. The name that a search is saved under holds no white space and no
    slash, whatever the query, and sanitising it again changes nothing. *)
Theorem safeQuery_clean (query : string) :
  (forall c, replaced c = true -> Utils.includes c (safeQuery query) = false)
  /\ safeQuery (safeQuery query) = safeQuery query.
Proof.
  split.
  - intros c Hc. apply safe_includes, Hc.
  - apply safe_fixed. intros c Hc. apply safe_includes, Hc.
Qed.



Section DriverProperties.

Variable detect : string -> string.
Variable searchPlants : string -> result page_response.
Variable api : TrefleAPI.
Variable o : options.






Lemma search_attempt_json (query : string) :
  enrichment o = false -> format o = "json" ->
  search_attempt detect searchPlants api o query
  = match search_results searchPlants query with
    | Some results => Utils.Done [search_file o query results]
    | None =>
        match searchPlants query with
        | Ok _ => Utils.Done []
        | Throw e => Utils.Raise (Utils.Thrown e)
        end
    end.
Proof.
  intros Henrich Hformat. unfold search_attempt, search_results.
  destruct (searchPlants query) as [response|e]; simpl; [|reflexivity].
  destruct (data response) as [[|first others]|]; simpl; try reflexivity.
  rewrite Henrich. simpl. unfold save, Utils.writeToFile. rewrite Hformat.
  reflexivity.
Qed.

Lemma search_loop_json (queries : list string) :
  dryRun o = false -> enrichment o = false -> format o = "json" ->
  forall saved : list saved_file,
  search_loop detect searchPlants api o queries saved
  = saved ++ omap (fun query =>
                     search_file o query <$> search_results searchPlants query)
              queries.
Proof.
  intros Hdry Henrich Hformat.
  induction queries as [|query queries IH]; intros saved;
    [symmetry; apply app_nil_r|].
  cbn [search_loop]. rewrite Hdry, (search_attempt_json _ Henrich Hformat).
  change (omap ?f (query :: queries))
    with (match f query with
          | Some file => file :: omap f queries
          | None => omap f queries
          end).
  cbv beta.
  destruct (search_results searchPlants query) as [results|]; simpl.
  - rewrite IH, <- app_assoc. reflexivity.
  - destruct (searchPlants query); rewrite IH, ?app_nil_r; reflexivity.
Qed.

(** X11. Outside a dry run, without enrichment and in the default format,
    [fetchSearchQueries] saves exactly one file for each query whose search
    resolved with results, in the order of the queries, holding the
    results as the API gave them; the other queries are passed over. *)
Theorem fetchSearchQueries_json (queries : list string) :
  dryRun o = false -> enrichment o = false -> format o = "json" ->
  fetchSearchQueries detect searchPlants api o queries
  = omap (fun query => search_file o query <$> search_results searchPlants query)
      queries.
Proof.
  intros Hdry Henrich Hformat. destruct queries as [|query queries]; [reflexivity|].
  unfold fetchSearchQueries.
  rewrite (search_loop_json _ Hdry Henrich Hformat). reflexivity.
Qed.

Lemma response_with_data (response plantData : val) :
  get response "data" = Ok plantData -> truthy plantData = true ->
  exists props, response = VObj props.
Proof.
  destruct response as [| |b|n|str|l|props]; simpl; try discriminate.
  - intros [= <-]. discriminate.
  - intros [= <-]. discriminate.
  - rewrite lookup_indexed_name by reflexivity. intros [= <-]. discriminate.
  - rewrite lookup_indexed_name by reflexivity. intros [= <-]. discriminate.
  - eauto.
Qed.

Lemma save_object_csv (props : list (string * val)) (dir name : string) :
  format o = "csv" ->
  save detect (VObj props) dir name o
  = Utils.Raise (Utils.Err "CSV format requires an array of objects").
Proof.
  intros Hformat. unfold save, Utils.writeToFile. rewrite Hformat.
  destruct dir; reflexivity.
Qed.

Lemma by_id_attempt_csv (plantId : val) (files : list saved_file) :
  format o = "csv" ->
  by_id_attempt detect api o plantId = Utils.Done files -> files = [].
Proof.
  intros Hformat. unfold by_id_attempt.
  destruct (getPlant api plantId) as [response|e]; simpl; [|discriminate].
  destruct (get response "data") as [plantData|e] eqn:Hdata; simpl; [|discriminate].
  destruct (truthy plantData) eqn:Htruthy; [|intros [= <-]; reflexivity].
  destruct (response_with_data _ _ Hdata Htruthy) as [props ->].
  destruct (enrichment o).
  - destruct (flattenPlantData plantData plantData) as [flat|e] eqn:Hflat; simpl;
      [|discriminate].
    apply flattenPlantData_inv in Hflat as (imgs & dists & _ & _ & ->).
    rewrite (save_object_csv _ _ _ Hformat). discriminate.
  - simpl. rewrite (save_object_csv _ _ _ Hformat). discriminate.
Qed.

Lemma by_id_loop_csv (plantIds : list val) (saved : list saved_file) :
  format o = "csv" -> by_id_loop detect api o plantIds saved = saved.
Proof.
  intros Hformat. revert saved.
  induction plantIds as [|plantId plantIds IH]; intros saved; [reflexivity|].
  cbn [by_id_loop]. destruct (dryRun o); [apply IH|].
  destruct (by_id_attempt detect api o plantId) as [files|e] eqn:Hattempt;
    [|apply IH].
  rewrite (by_id_attempt_csv _ _ Hformat Hattempt), app_nil_r. apply IH.
Qed.

(** X12. In the CSV format [fetchPlantsById] saves no file at all,
    whatever the API answers, with enrichment or without: what it hands to
    [writeToFile] is one object, the flattened plant or the whole response,
    and the CSV branch refuses everything but an array. *)
Theorem fetchPlantsById_csv_saves_nothing (plantIds : list val) :
  format o = "csv" -> fetchPlantsById detect api o plantIds = [].
Proof.
  intros Hformat. destruct plantIds as [|plantId plantIds]; [reflexivity|].
  unfold fetchPlantsById. apply (by_id_loop_csv _ _ Hformat).
Qed.




End DriverProperties.

Lemma fetchSearchQueries_json_witness :
  fetchSearchQueries (fun _ => "json")
    (fun query => if String.eqb query "oak" then getPlants sample_api 1
                  else Throw ApiError)
    sample_api sample_options ["red maple"; "oak"]
  = [search_file sample_options "oak" [plant_of 1; plant_of 2]].
Proof.
  rewrite (fetchSearchQueries_json (fun _ => "json") _ sample_api sample_options
             ["red maple"; "oak"]); reflexivity.
Defined.

Lemma fetchPlantsById_csv_saves_nothing_witness :
  fetchPlantsById (fun _ => "csv")
    {| getPlants := getPlants sample_api;
       getPlant := fun _ => Ok (VObj [("data", sample_detail)]) |}
    {| plants := false; enrichment := true; format := "csv"; startPage := 1;
       pages := None; dryRun := false |}
    [VNum 1; VNum 2]
  = [].
Proof.
  apply (fetchPlantsById_csv_saves_nothing (fun _ => "csv")). reflexivity.
Defined.

(** A slug is joined to the directory as the API gave it: with a slug
    that climbs out of the directory, so does the path. *)
Example by_id_slug_not_sanitised :
  by_id_saved (fun _ => "json")
    {| getPlants := getPlants sample_api;
       getPlant := fun _ => Ok (VObj [("data", VObj [("slug", VStr "../evil")])]) |}
    sample_options (VNum 5)
  = Some {| joined_dir := "datasets/trefle/plants_by_id";
            joined_name := "../evil_5.json";
            saved_content :=
              Utils.Json (VObj [("data", VObj [("slug", VStr "../evil")])]) |}.
Proof. vm_compute. reflexivity. Qed.


(** ** More on [flattenPlantData], [enrichPlantData] and
       [trimPlantSynonyms] *)


Lemma mapM_Forall2 {A B : Type} (f : A -> result B) (l : list A) (ys : list B) :
  mapM f l = Ok ys -> Forall2 (fun x y => f x = Ok y) l ys.
Proof.
  revert ys. induction l as [|x l IH]; intros ys; simpl.
  - intros [= <-]. constructor.
  - destruct (f x) as [y|] eqn:Hy; simpl; [|discriminate].
    destruct (mapM f l) as [ys'|]; simpl; [|discriminate].
    intros [= <-]. constructor; [exact Hy | apply IH; reflexivity].
Qed.

Lemma filterM_kept {A : Type} (f : A -> result bool) (l r : list A) :
  filterM f l = Ok r ->
  Forall (fun x => In x l /\ f x = Ok true) r /\ (length r <= length l)%nat.
Proof.
  revert r. induction l as [|x l IH]; intros r; simpl.
  - intros [= <-]. split; [apply Forall_nil; exact I | simpl; lia].
  - destruct (f x) as [b|] eqn:Hb; simpl; [|discriminate].
    destruct (filterM f l) as [r'|]; simpl; [|discriminate].
    destruct (IH r' eq_refl) as [Hall Hlen].
    assert (Hall' : Forall (fun y => In y (x :: l) /\ f y = Ok true) r').
    { eapply Forall_impl; [exact Hall|]. intros y [Hin Hy]. split; [right|]; auto. }
    intros [= <-]. destruct b; simpl.
    + split; [constructor; [split; [left; reflexivity | exact Hb] | exact Hall'] | lia].
    + split; [exact Hall' | lia].
Qed.

Lemma foldM_invariant {A S : Type} (f : S -> A -> result S) (P : S -> Prop)
    (l : list A) :
  (forall s a s', In a l -> P s -> f s a = Ok s' -> P s') ->
  forall s r, P s -> foldM f l s = Ok r -> P r.
Proof.
  induction l as [|a l IH]; intros Hf s r Hs; simpl.
  - intros [= <-]. exact Hs.
  - destruct (f s a) as [s'|] eqn:Hs'; simpl; [|discriminate].
    apply IH.
    + intros s0 a0 s0' Hin. apply Hf. right. exact Hin.
    + apply (Hf s a s'); [left; reflexivity | exact Hs | exact Hs'].
Qed.

Lemma Forall2_In_r {A B : Type} (R : A -> B -> Prop) (l : list A) (ys : list B)
    (y : B) :
  Forall2 R l ys -> In y ys -> exists x, In x l /\ R x y.
Proof.
  induction 1 as [|x y' l ys Hxy _ IH]; simpl; [contradiction|].
  intros [<-|Hin]; [eauto|].
  destruct (IH Hin) as (x' & Hx' & HR). eauto.
Qed.

Lemma kept_image_trimmed (img y : val) :
  trim_image img = Ok y -> keep_image y = Ok true -> trimmed_image y.
Proof.
  unfold trim_image. destruct (typeof_object img) eqn:Hobj.
  - destruct (get img "image_url") as [image_url|]; simpl; [|discriminate].
    destruct (get img "copyright") as [copyright|]; simpl; [|discriminate].
    intros [= <-]. unfold keep_image. cbn [truthy get lookup_own String.eqb
      Ascii.eqb Bool.eqb default from_option id bind].
    intros Hkeep. exists image_url, copyright. split; [reflexivity|].
    destruct (truthy image_url); [reflexivity|].
    cbn [bind] in Hkeep. injection Hkeep as ->. reflexivity.
  - intros [= <-]. unfold keep_image.
    destruct (truthy img); [|discriminate].
    destruct img as [| |b|n|s| |]; try discriminate; cbn [get bind truthy].
    change (String.eqb "image_url" "length") with false.
    change (String.eqb "copyright" "length") with false. cbv iota.
    rewrite !lookup_indexed_name by reflexivity. discriminate.
Qed.

Lemma trim_image_entry_invariant (detail_images : list (string * val))
    (acc acc' : list (string * val)) (entry : string * val) :
  In entry detail_images ->
  Forall (fun kept =>
            In kept.1 (keys detail_images)
            /\ exists l, kept.2 = VArr l /\ (0 < length l <= 2)%nat
                         /\ Forall trimmed_image l) acc ->
  trim_image_entry acc entry = Ok acc' ->
  Forall (fun kept =>
            In kept.1 (keys detail_images)
            /\ exists l, kept.2 = VArr l /\ (0 < length l <= 2)%nat
                         /\ Forall trimmed_image l) acc'.
Proof.
  intros Hin Hacc. destruct entry as [imageType imageList]. unfold trim_image_entry.
  destruct (negb (truthy imageList) || negb (isArray imageList)
            || String.eqb imageType ""); [intros [= <-]; exact Hacc|].
  destruct (mapM trim_image (slice0 2 (elems imageList))) as [projected|] eqn:Hmap;
    simpl; [|discriminate].
  destruct (filterM keep_image projected) as [trimmedList|] eqn:Hfilter; simpl;
    [|discriminate].
  destruct (0 <? Z.of_nat (length trimmedList)) eqn:Hlen;
    intros [= <-]; [|exact Hacc].
  apply set_own_Forall; [|exact Hacc]. simpl. split.
  - unfold keys. apply (in_map fst _ _ Hin).
  - exists trimmedList. apply Z.ltb_lt in Hlen.
    apply mapM_Forall2 in Hmap. apply filterM_kept in Hfilter as [Hkept Hle].
    pose proof (Forall2_length _ _ _ Hmap) as Hsame.
    assert (Htwo : (length (slice0 2 (elems imageList)) <= 2)%nat).
    { rewrite slice0_nonneg by lia. rewrite length_take. lia. }
    split; [reflexivity|]. split; [lia|].
    eapply Forall_impl; [exact Hkept|]. intros y [Hy_in Hy_keep].
    destruct (Forall2_In_r _ _ _ _ Hmap Hy_in) as (img & _ & Himg).
    exact (kept_image_trimmed img y Himg Hy_keep).
Qed.

(** X15. The [images] of a flattened record: an object that holds, under
    image types of the detail record only, non-empty lists of at most two
    images, each cut down to [image_url] and [copyright] with one of the
    two truthy. *)
Theorem flattenPlantData_images (p d r : val) :
  flattenPlantData p d = Ok r ->
  exists imgs,
    prop r "images" = VObj imgs
    /\ Forall (fun kept =>
                 In kept.1 (keys (own_entries (group (main_species d) "images")))
                 /\ exists l, kept.2 = VArr l /\ (0 < length l <= 2)%nat
                              /\ Forall trimmed_image l) imgs.
Proof.
  intros Hr. apply flattenPlantData_inv in Hr as (imgs & dists & Himgs & _ & ->).
  exists imgs. split.
  - unfold prop. cbn [get].
    rewrite (flat_record_lookup _ _ _ _ "images" Images)
      by (unfold flattening_rules; repeat (first [left; reflexivity | right])).
    reflexivity.
  - unfold trim_images in Himgs.
    refine (foldM_invariant trim_image_entry
              (Forall (fun kept =>
                 In kept.1 (keys (own_entries (group (main_species d) "images")))
                 /\ exists l, kept.2 = VArr l /\ (0 < length l <= 2)%nat
                              /\ Forall trimmed_image l))
              _ _ [] imgs _ Himgs); [|constructor].
    intros s a s' Hin Hs Hstep.
    exact (trim_image_entry_invariant _ s s' a Hin Hs Hstep).
Qed.

Lemma flattenPlantData_images_witness :
  exists imgs,
    prop sample_flat "images" = VObj imgs
    /\ Forall (fun kept =>
                 In kept.1
                   (keys (own_entries (group (main_species sample_detail) "images")))
                 /\ exists l, kept.2 = VArr l /\ (0 < length l <= 2)%nat
                              /\ Forall trimmed_image l) imgs.
Proof.
  apply (flattenPlantData_images sample_summary sample_detail sample_flat).
  vm_compute. reflexivity.
Defined.






Lemma trimPlant_idempotent (maxSynonyms : Z) (plant : val) :
  0 <= maxSynonyms ->
  trimPlant maxSynonyms (trimPlant maxSynonyms plant) = trimPlant maxSynonyms plant.
Proof.
  intros Hmax. remember (trimPlant maxSynonyms plant) as trimmed eqn:Htrimmed.
  unfold trimPlant in Htrimmed.
  destruct (isArray (default VUndef (lookup_own "synonyms" (own_entries plant)))
            && (maxSynonyms <? len (default VUndef
                                      (lookup_own "synonyms" (own_entries plant)))))
    eqn:Hcut; subst trimmed; unfold trimPlant; cbn [own_entries].
  - rewrite lookup_set_own.
    cbn [String.eqb Ascii.eqb Bool.eqb default from_option id isArray andb len elems].
    rewrite slice0_nonneg by exact Hmax.
    replace (maxSynonyms <? _) with false; [reflexivity|].
    symmetry. apply Z.ltb_ge. unfold len. cbn [elems].
    rewrite length_take. lia.
  - rewrite Hcut. reflexivity.
Qed.

(** X19. Trimming the synonyms a second time, to the same maximum that is
    not negative, changes nothing. *)
Theorem trimPlantSynonyms_idempotent (plants : val) (maxSynonyms : Z) :
  0 <= maxSynonyms ->
  trimPlantSynonyms (trimPlantSynonyms plants maxSynonyms) maxSynonyms
  = trimPlantSynonyms plants maxSynonyms.
Proof.
  intros Hmax.
  remember (trimPlantSynonyms plants maxSynonyms) as trimmed eqn:Htrimmed.
  unfold trimPlantSynonyms in Htrimmed.
  destruct (negb (truthy plants) || negb (isArray plants)) eqn:Hskip;
    subst trimmed; unfold trimPlantSynonyms.
  - rewrite Hskip. reflexivity.
  - cbn [truthy isArray negb orb elems].
    f_equal. rewrite map_map. apply map_ext. intros plant.
    apply trimPlant_idempotent, Hmax.
Qed.

Lemma trimPlantSynonyms_idempotent_witness :
  trimPlantSynonyms
    (trimPlantSynonyms
       (VArr [VObj [("id", VNum 1);
                    ("synonyms", VArr [VStr "a"; VStr "b"; VStr "c"])]]) 2) 2
  = trimPlantSynonyms
      (VArr [VObj [("id", VNum 1);
                   ("synonyms", VArr [VStr "a"; VStr "b"; VStr "c"])]]) 2.
Proof.
  apply (trimPlantSynonyms_idempotent
           (VArr [VObj [("id", VNum 1);
                        ("synonyms", VArr [VStr "a"; VStr "b"; VStr "c"])]]) 2).
  lia.
Defined.

(** ** [getAllPages] and [_buildParams] *)

Section AllPages.
Import Api.

Variable method : Z -> result val.
Variable maxPages : option Z.

Lemma page_turn_items (page : Z) (allData allData' : list val) (more : bool) :
  page_turn method page allData = Ok (allData', more) ->
  allData' = allData ++ page_items method page
  /\ exists response, method page = Ok response.
Proof.
  unfold page_turn, page_items.
  destruct (method page) as [response|e]; cbn [bind]; [|discriminate].
  destruct (get response "data") as [d|e] eqn:Hd; cbn [bind]; [|discriminate].
  assert (Hprop : prop response "data" = d) by (unfold prop; rewrite Hd; reflexivity).
  rewrite Hprop.
  destruct (truthy d).
  - destruct (spread_items d) as [items|e]; cbn [bind]; [|discriminate].
    destruct (get response "links") as [links|e]; cbn [bind]; [|discriminate].
    destruct (truthy links).
    + destruct (get links "next"); cbn [bind]; [|discriminate].
      intros [= <- _]. eauto.
    + intros [= <- _]. eauto.
  - cbn [bind].
    destruct (get response "links") as [links|e]; cbn [bind]; [|discriminate].
    destruct (truthy links).
    + destruct (get links "next"); cbn [bind]; [|discriminate].
      intros [= <- _]. rewrite app_nil_r. eauto.
    + intros [= <- _]. rewrite app_nil_r. eauto.
Qed.

Lemma pages_invariant_next (n : nat) (page : Z) (allData allData' : list val)
    (more : bool) :
  pages_invariant method maxPages n page allData ->
  over_limit maxPages page = false ->
  page_turn method page allData = Ok (allData', more) ->
  pages_invariant method maxPages (S n) (page + 1) allData'.
Proof.
  intros (Hpage & Hdata & Hok & Hmax) Hlimit Hturn.
  apply page_turn_items in Hturn as [-> Hresponse].
  unfold pages_invariant. rewrite pages_from_snoc, flat_map_snoc, Forall_app.
  replace (1 + Z.of_nat n) with page by lia.
  split; [lia|]. split; [rewrite Hdata; reflexivity|].
  split; [split; [exact Hok | repeat constructor; exact Hresponse]|].
  intros m Hm Hne. unfold over_limit in Hlimit. rewrite Hm in Hlimit.
  destruct (Z.eqb_spec m 0); [contradiction|]. simpl in Hlimit.
  apply Z.ltb_ge in Hlimit. lia.
Qed.

Lemma pages_loop_outcome (fuel : nat) :
  forall (n : nat) (page : Z) (allData all : list val),
  pages_invariant method maxPages n page allData ->
  pages_loop fuel method maxPages page allData = Some (Utils.Done all) ->
  exists n', pages_invariant method maxPages n' (1 + Z.of_nat n') all.
Proof.
  induction fuel as [|fuel IH]; intros n page allData all Hinv; simpl; [discriminate|].
  destruct (over_limit maxPages page) eqn:Hlimit.
  - intros [= <-]. exists n. destruct Hinv as (-> & H). split; [reflexivity | exact H].
  - destruct (page_turn method page allData) as [[allData' more]|e] eqn:Hturn;
      [|discriminate].
    pose proof (pages_invariant_next _ _ _ _ _ Hinv Hlimit Hturn) as Hnext.
    destruct more.
    + apply (IH (S n)). exact Hnext.
    + intros [= <-]. exists (S n). destruct Hnext as (_ & H).
      split; [reflexivity | exact H].
Qed.

Lemma pages_loop_limit (m : Z) (fuel : nat) :
  maxPages = Some m -> m <> 0 ->
  forall (page : Z) (allData : list val),
  1 <= page -> (Z.to_nat (m + 1 - page) < fuel)%nat ->
  exists out, pages_loop fuel method maxPages page allData = Some out.
Proof.
  intros Hm Hne. induction fuel as [|fuel IH]; intros page allData Hpage Hfuel;
    [lia|].
  simpl. destruct (over_limit maxPages page) eqn:Hlimit; [eauto|].
  destruct (page_turn method page allData) as [[allData' more]|e]; [|eauto].
  destruct more; [|eauto].
  unfold over_limit in Hlimit. rewrite Hm in Hlimit.
  destruct (Z.eqb_spec m 0); [contradiction|]. simpl in Hlimit.
  apply Z.ltb_ge in Hlimit. apply IH; lia.
Qed.

End AllPages.

(** X20. What [getAllPages] returns is the data of the pages 1 to [n] of
    the method, put end to end in page order, for some [n]; each of these
    pages was answered, and under a page limit there are no more of them
    than the limit. *)
Theorem getAllPages_collects (fuel : nat)
    (methods : string -> option (Z -> result val)) (methodName : string)
    (method : Z -> result val) (maxPages : option Z) (all : list val) :
  methods methodName = Some method ->
  Api.getAllPages fuel methods methodName maxPages = Some (Utils.Done all) ->
  exists n : nat,
    all = flat_map (page_items method) (pages_from 1 n)
    /\ Forall (fun p => exists response, method p = Ok response) (pages_from 1 n)
    /\ (forall m, maxPages = Some m -> m <> 0 -> Z.of_nat n <= Z.max m 0).
Proof.
  intros Hmethod. unfold Api.getAllPages. rewrite Hmethod. intros Hloop.
  destruct (pages_loop_outcome method maxPages fuel 0 1 [] all) as [n (_ & H)];
    [|exact Hloop|exists n; exact H].
  repeat split; [constructor | intros; lia].
Qed.

(** X21. Under a page limit [getAllPages] ends: with a positive limit
    after at most that many requests, with a negative one before the
    first. *)
Theorem getAllPages_terminates (fuel : nat)
    (methods : string -> option (Z -> result val)) (methodName : string)
    (m : Z) :
  m <> 0 -> (Z.to_nat m < fuel)%nat ->
  exists out, Api.getAllPages fuel methods methodName (Some m) = Some out.
Proof.
  intros Hne Hfuel. unfold Api.getAllPages.
  destruct (methods methodName) as [method|]; [|eauto].
  apply (pages_loop_limit method (Some m) m fuel eq_refl Hne); lia.
Qed.

Lemma getAllPages_collects_witness :
  exists n : nat,
    [plant_of 1; plant_of 2] = flat_map (page_items two_page_method) (pages_from 1 n)
    /\ Forall (fun p => exists response, two_page_method p = Ok response)
         (pages_from 1 n)
    /\ (forall m, Some 5 = Some m -> m <> 0 -> Z.of_nat n <= Z.max m 0).
Proof.
  apply (getAllPages_collects 5 (fun _ => Some two_page_method) "getPlants"
           two_page_method (Some 5) [plant_of 1; plant_of 2]); reflexivity.
Defined.

Lemma getAllPages_terminates_witness :
  exists out,
    Api.getAllPages 4 (fun _ => Some two_page_method) "getPlants" (Some 3)
    = Some out.
Proof.
  apply (getAllPages_terminates 4 (fun _ => Some two_page_method) "getPlants" 3);
    lia.
Defined.

Section BuildParamsProperties.
Import Api.

Variable stringify : val -> string.

Lemma add_param_lookup (params : list (string * val)) (k key : string) (v : val) :
  key <> "__proto__" ->
  lookup_own key (add_param stringify params (k, v)) =
  if String.eqb key k && negb (nullish v) then Some (param_value stringify v)
  else lookup_own key params.
Proof.
  intros Hkey. unfold add_param. destruct (nullish v) eqn:Hv.
  - rewrite andb_false_r. reflexivity.
  - rewrite andb_true_r.
    destruct (String.eqb_spec k "__proto__") as [->|_].
    + destruct (String.eqb_spec key "__proto__"); [contradiction|reflexivity].
    + destruct v; try discriminate; cbn [typeof_object isArray negb andb param_value];
        apply lookup_set_own.
Qed.

Lemma fold_add_param_lookup (entries : list (string * val)) :
  forall (params : list (string * val)) (key : string),
  key <> "__proto__" -> NoDup (keys entries) ->
  lookup_own key (fold_left (add_param stringify) entries params) =
  match lookup_own key entries with
  | Some v => if nullish v then lookup_own key params
              else Some (param_value stringify v)
  | None => lookup_own key params
  end.
Proof.
  induction entries as [|[k v] entries IH]; intros params key Hkey Hnd;
    [reflexivity|].
  apply NoDup_cons in Hnd as [Hk Hnd]. cbn [fold_left lookup_own].
  rewrite (IH _ _ Hkey Hnd), (add_param_lookup _ _ _ _ Hkey).
  destruct (String.eqb_spec key k) as [->|Hne]; [|reflexivity].
  destruct (lookup_own k entries) as [v'|] eqn:Hlook.
  - exfalso. apply Hk, list_elem_of_In, lookup_own_keys. eauto.
  - destruct (nullish v); reflexivity.
Qed.

(** X22. The request parameters that [_buildParams] makes, read as a
    mapping: an option that is neither [null] nor [undefined] is sent
    under its own name, an object as its JSON text and anything else as it
    is; the other options are not sent; the token is sent under [token]
    unless an option of that name takes its place. *)
Theorem buildParams_lookup (token options : val)
    (params : list (string * val)) (key : string) :
  NoDup (keys (own_entries options)) -> key <> "__proto__" ->
  _buildParams stringify token options = Ok params ->
  lookup_own key params =
  match lookup_own key (own_entries options) with
  | Some v =>
      if nullish v then (if String.eqb key "token" then Some token else None)
      else Some (param_value stringify v)
  | None => if String.eqb key "token" then Some token else None
  end.
Proof.
  intros Hnd Hkey Hparams.
  assert (Hfold : params = fold_left (add_param stringify) (own_entries options)
                             [("token", token)]).
  { unfold _buildParams in Hparams. destruct options; congruence. }
  rewrite Hfold, (fold_add_param_lookup _ _ _ Hkey Hnd). reflexivity.
Qed.

End BuildParamsProperties.

Lemma buildParams_lookup_witness :
  lookup_own "filter"
    [("token", VStr "secret"); ("filter", VStr "{}"); ("page", VNum 2)] =
  match lookup_own "filter"
          (own_entries (VObj [("filter", VObj []); ("order", VNull);
                              ("page", VNum 2)])) with
  | Some v =>
      if nullish v then (if String.eqb "filter" "token" then Some (VStr "secret")
                         else None)
      else Some (param_value (fun _ => "{}") v)
  | None => if String.eqb "filter" "token" then Some (VStr "secret") else None
  end.
Proof.
  apply (buildParams_lookup (fun _ => "{}") (VStr "secret")
           (VObj [("filter", VObj []); ("order", VNull); ("page", VNum 2)])).
  - apply (bool_decide_unpack (NoDup ["filter"; "order"; "page"])).
    vm_compute. exact I.
  - discriminate.
  - reflexivity.
Defined.

(** ** [callAPI] *)



